(** * sqlalchemy-joins: the N+1 demonstration script [app.py]

    A shallow embedding of [app.py]: the five mapped classes and their
    relationships, the seed routine [populate_db], the query builder
    [get_query], the statement counter [DBStatementCounter] and the three
    demonstration scenarios, over an explicit model of the store, of the
    session and of the connection's [after_execute] event. *)

From Stdlib Require Import List String Ascii Bool Arith ZArith Lia DecimalString.
Import ListNotations.
Local Open Scope string_scope.
Local Open Scope list_scope.

(* ===================================================================== *)
(** ** Strings: f-strings, [lower] and SQL [LIKE]                        *)
(* ===================================================================== *)

(** [str(i)] for a non-negative Python int, as an f-string renders [{i}]. *)
Definition str (i : nat) : string := NilZero.string_of_uint (Nat.to_uint i).

(** SQL [lower()] on one character: ASCII letters only, as SQLite does. *)
Definition lower_ascii (c : ascii) : ascii :=
  let n := nat_of_ascii c in
  if ((65 <=? n) && (n <=? 90))%nat then ascii_of_nat (n + 32) else c.

Fixpoint lower (s : string) : string :=
  match s with
  | EmptyString => EmptyString
  | String c s' => String (lower_ascii c) (lower s')
  end.

(** [like pat s]: the SQL predicate [s LIKE pat] with no escape character:
    [%] matches any run of characters and [_] any one character; every
    other pattern character matches itself. A character is a byte here. The
    comparison is exact: the only use, [ilike], lowers both sides first,
    which is also what makes SQLite's own ASCII case folding in LIKE
    irrelevant. *)
Fixpoint like (pat : string) : string -> bool :=
  match pat with
  | EmptyString => fun s => match s with EmptyString => true | _ => false end
  | String p pat' =>
      if Ascii.eqb p "%" then
        fix any (s : string) : bool :=
          like pat' s || match s with
                         | EmptyString => false
                         | String _ s' => any s'
                         end
      else if Ascii.eqb p "_" then
        fun s => match s with
                 | EmptyString => false
                 | String _ s' => like pat' s'
                 end
      else
        fun s => match s with
                 | EmptyString => false
                 | String c s' => Ascii.eqb p c && like pat' s'
                 end
  end.

(** [column.ilike(pattern)], rendered [lower(column) LIKE lower(pattern)].
    A NULL column makes the predicate NULL, which a WHERE clause rejects
    like false. *)
Definition ilike (column : option string) (pattern : string) : bool :=
  match column with
  | None => false
  | Some s => like (lower pattern) (lower s)
  end.

(** Case-insensitive prefix, stated without reference to patterns. *)
Definition iprefix (pre s : string) : bool := prefix (lower pre) (lower s).

(** A pattern fragment with no wildcard in it. *)
Fixpoint plain (s : string) : bool :=
  match s with
  | EmptyString => true
  | String c s' =>
      negb (Ascii.eqb c "%") && negb (Ascii.eqb c "_") && plain s'
  end.

(* ===================================================================== *)
(** ** The mapped classes (app.py, lines 61-95)                          *)
(* ===================================================================== *)

Module Person.
Record t := mk { id : nat; name : option string }.
End Person.

Module User.
Record t := mk { id : nat; person_id : option nat }.
End User.

Module Company.
Record t := mk { id : nat; name : option string }.
End Company.

Module Account.
Record t := mk { id : nat; status : option string; company_id : option nat }.
End Account.

Module UserAccount.
Record t := mk { account_id : nat; user_id : nat }.
End UserAccount.

(** A row of any of the five tables. *)
Inductive Entity :=
| EPerson (p : Person.t)
| EUser (u : User.t)
| ECompany (c : Company.t)
| EAccount (a : Account.t)
| EUserAccount (ua : UserAccount.t).

(** The in-memory SQLite database behind [engine]: one list per table, in
    insertion (rowid) order, which is also the order a scan returns. *)
Record Store := mkStore {
  persons : list Person.t;
  users : list User.t;
  companies : list Company.t;
  accounts : list Account.t;
  user_accounts : list UserAccount.t }.

Definition empty_store : Store := mkStore [] [] [] [] [].

Definition fk_eqb (fk : option nat) (pk : nat) : bool :=
  match fk with
  | None => false
  | Some k => (k =? pk)%nat
  end.

(** [related db e r]: the rows the relationship [r] declared on the class of
    [e] relates to [e], in scan order; [None] when the class declares no
    relationship of that name. *)
Definition related (db : Store) (e : Entity) (r : string)
  : option (list Entity) :=
  match e with
  | EPerson p =>
      if r =? "user" then
        Some (map EUser
                (filter (fun u => fk_eqb (User.person_id u) (Person.id p))
                   (users db)))
      else None
  | EUser u =>
      if r =? "person" then
        Some (map EPerson
                (filter (fun p => fk_eqb (User.person_id u) (Person.id p))
                   (persons db)))
      else if r =? "my_accounts" then
        Some (map EUserAccount
                (filter (fun ua => (UserAccount.user_id ua =? User.id u)%nat)
                   (user_accounts db)))
      else None
  | ECompany _ => None
  | EAccount a =>
      if r =? "company" then
        Some (map ECompany
                (filter (fun c => fk_eqb (Account.company_id a) (Company.id c))
                   (companies db)))
      else None
  | EUserAccount ua =>
      if r =? "account" then
        Some (map EAccount
                (filter (fun a => (Account.id a =? UserAccount.account_id ua)%nat)
                   (accounts db)))
      else if r =? "user" then
        Some (map EUser
                (filter (fun u => (User.id u =? UserAccount.user_id ua)%nat)
                   (users db)))
      else None
  end.

(** Whether a relationship loads a collection: only [User.my_accounts] does
    ([Person.user] has [uselist=False]; the others are many-to-one). *)
Definition uselist (e : Entity) (r : string) : bool :=
  match e with
  | EUser _ => r =? "my_accounts"
  | _ => false
  end.

(** The relationship names a class declares, in declaration order. *)
Definition relationships (e : Entity) : list string :=
  match e with
  | EPerson _ => ["user"]
  | EUser _ => ["person"; "my_accounts"]
  | ECompany _ => []
  | EAccount _ => ["company"]
  | EUserAccount _ => ["account"; "user"]
  end.

(** The mapped classes, as [session.query(cls)] names them. *)
Inductive Class := CPerson | CUser | CCompany | CAccount | CUserAccount.

Definition table (db : Store) (cls : Class) : list Entity :=
  match cls with
  | CPerson => map EPerson (persons db)
  | CUser => map EUser (users db)
  | CCompany => map ECompany (companies db)
  | CAccount => map EAccount (accounts db)
  | CUserAccount => map EUserAccount (user_accounts db)
  end.

(** Next value of an [INTEGER PRIMARY KEY] column: one more than the largest
    key in the table, 1 for an empty table. *)
Definition next_id (ids : list nat) : nat := S (fold_right Nat.max 0 ids).

(* ===================================================================== *)
(** ** Queries and loader options                                        *)
(* ===================================================================== *)

Inductive Strategy := Joined | ContainsEager.

(** [joinedload(k1, .., kn)] and [contains_eager(k1, .., kn)]: the strategy
    applies to the relationship the whole path of keys ends at. *)
Record LoaderOption := mkOption {
  lo_strategy : Strategy;
  lo_path : list string }.

Definition joinedload (keys : list string) : LoaderOption :=
  mkOption Joined keys.
Definition contains_eager (keys : list string) : LoaderOption :=
  mkOption ContainsEager keys.

(** The columns the filter of [get_query] names. *)
Inductive Column := Person_name | Account_status | Company_name.

Inductive Criterion := Ilike (col : Column) (pattern : string).

Record Session := mkSession { s_conn : nat }.

(** A [Query] object: what [session.query(..).join(..).options(..).filter(..)]
    has accumulated. Building it executes nothing. *)
Record Query := mkQuery {
  q_session : Session;
  q_entity : Class;
  q_join : list string;
  q_options : list LoaderOption;
  q_filter : list Criterion }.

Definition session_query (session : Session) (cls : Class) : Query :=
  mkQuery session cls [] [] [].
Definition Query_join (keys : list string) (q : Query) : Query :=
  mkQuery (q_session q) (q_entity q) (q_join q ++ keys) (q_options q)
    (q_filter q).
Definition Query_options (opts : list LoaderOption) (q : Query) : Query :=
  mkQuery (q_session q) (q_entity q) (q_join q) (q_options q ++ opts)
    (q_filter q).
Definition Query_filter (crit : list Criterion) (q : Query) : Query :=
  mkQuery (q_session q) (q_entity q) (q_join q) (q_options q)
    (q_filter q ++ crit).

Inductive Exc :=
| AttributeError | IndexError | TypeError | InvalidRequestError
| IntegrityError.

(** What a caller may pass as [options]: [None], a list or tuple of loader
    options, or a value that is no sequence at all. *)
Inductive OptionsArg :=
| ArgNone
| ArgList (l : list LoaderOption)
| ArgTuple (l : list LoaderOption)
| ArgBool (b : bool)
| ArgInt (n : Z).

(** Python truth value of the argument. *)
Definition truthy_arg (a : OptionsArg) : bool :=
  match a with
  | ArgNone => false
  | ArgList l | ArgTuple l => negb (Nat.eqb (List.length l) 0)
  | ArgBool b => b
  | ArgInt n => negb (Z.eqb n 0)
  end.

(** [*options]: unpacking needs an iterable. *)
Definition unpack (a : OptionsArg) : Exc + list LoaderOption :=
  match a with
  | ArgList l | ArgTuple l => inr l
  | _ => inl TypeError
  end.

(** app.py, lines 126-138. *)
Definition get_query (session : Session) (options : OptionsArg)
  : Exc + Query :=
  let options := if negb (truthy_arg options) then ArgList [] else options in
  match unpack options with
  | inl e => inl e
  | inr opts =>
      inr (Query_filter
             [Ilike Person_name "test%";
              Ilike Account_status "x%";
              Ilike Company_name "company%"]
             (Query_options opts
                (Query_join ["user"; "my_accounts"; "account"; "company"]
                   (session_query session CPerson))))
  end.

(** *** Evaluating a query: the joined rows and the WHERE clause *)

(** One row of a [JOIN] along the relationship [k]: the row (the entities
    joined so far, root first) is extended by each row related to its last
    entity. [None] when the class of that entity has no relationship [k]. *)
Definition extend (db : Store) (k : string) (row : list Entity)
  : option (list (list Entity)) :=
  match hd_error (rev row) with
  | Some e =>
      match related db e k with
      | Some es => Some (map (fun e' => row ++ [e']) es)
      | None => None
      end
  | None => None
  end.

Definition join_step (db : Store) (k : string) (row : list Entity)
  (acc : option (list (list Entity))) : option (list (list Entity)) :=
  match extend db k row, acc with
  | Some ext, Some rest => Some (ext ++ rest)
  | _, _ => None
  end.

(** [JOIN] along a path of relationship names, in nested-loop order. *)
Fixpoint join_rows (db : Store) (keys : list string)
  (rows : list (list Entity)) : option (list (list Entity)) :=
  match keys with
  | [] => Some rows
  | k :: keys' =>
      match fold_right (join_step db k) (Some []) rows with
      | Some rows' => join_rows db keys' rows'
      | None => None
      end
  end.

Definition is_person (e : Entity) : bool :=
  match e with EPerson _ => true | _ => false end.
Definition is_account (e : Entity) : bool :=
  match e with EAccount _ => true | _ => false end.
Definition is_company (e : Entity) : bool :=
  match e with ECompany _ => true | _ => false end.

(** The value of a column in a joined row; a column whose table the row does
    not hold reads as NULL (the query of [get_query] joins all three). *)
Definition column_value (c : Column) (row : list Entity) : option string :=
  match c with
  | Person_name =>
      match find is_person row with
      | Some (EPerson p) => Person.name p
      | _ => None
      end
  | Account_status =>
      match find is_account row with
      | Some (EAccount a) => Account.status a
      | _ => None
      end
  | Company_name =>
      match find is_company row with
      | Some (ECompany c) => Company.name c
      | _ => None
      end
  end.

Definition holds (row : list Entity) (c : Criterion) : bool :=
  match c with
  | Ilike col pattern => ilike (column_value col row) pattern
  end.

(** The rows the statement of a query selects: the joins, then the WHERE
    clause as the conjunction of the criteria. The statement has no ORDER
    BY; the rows come in nested-loop order over the FROM clause, each table
    scanned in insertion order. *)
Definition Query_rows (q : Query) (db : Store)
  : option (list (list Entity)) :=
  match
    join_rows db (q_join q) (map (fun e => [e]) (table db (q_entity q)))
  with
  | Some rows =>
      Some (filter (fun row => forallb (holds row) (q_filter q)) rows)
  | None => None
  end.

(* ===================================================================== *)
(** ** DBStatementCounter (app.py, lines 24-57) and the world it lives in *)
(* ===================================================================== *)

Module DBStatementCounter.

(** The attributes of an instance; [conn] is the connection's identity. *)
Record t := mk { conn : nat; count : nat; do_count : bool }.

(** [__init__(self, conn)], up to the [event.listen] call, which acts on the
    connection and is part of [new_counter] below. *)
Definition __init__ (conn : nat) : t := mk conn 0 false.

Definition __enter__ (self : t) : t := mk (conn self) (count self) true.

Definition __exit__ (self : t) : t := mk (conn self) (count self) false.

Definition get_count (self : t) : nat := count self.

(** [callback(self, *_)]: the listener body. *)
Definition callback (self : t) : t :=
  if do_count self then mk (conn self) (count self + 1) (do_count self)
  else self.

End DBStatementCounter.

(** What the script prints. *)
Inductive Out :=
| OutStr (s : string)
| OutQuery (q : Query)
| OutInt (n : nat).

(** Ghost record of what the session and the connections did. *)
Inductive Event :=
| EvAdd (handle : nat)
| EvFlush
| EvCommit
| EvExecute (conn : nat).

(** An instance of a mapped class while [populate_db] holds it: its key is
    [None] until a flush inserts the row, and a relationship attribute holds
    a reference to another instance. *)
Inductive Instance :=
| IPerson (id : option nat) (name : option string)
| IUser (id : option nat) (person : option nat)
| ICompany (id : option nat) (name : option string)
| IAccount (id : option nat) (status : option string) (company : option nat)
| IUserAccount (persistent : bool) (user : option nat) (account : option nat).

(** The process state: the database, the counter objects (an object is its
    index in [counters], so a listener and the [with] variable name the same
    one), the [after_execute] listeners registered per connection, the mapped
    instances created so far and the session's pending list. *)
Record World := mkWorld {
  db : Store;
  counters : list DBStatementCounter.t;
  listeners : list (nat * nat);
  next_conn : nat;
  instances : list Instance;
  pending : list nat;
  trace : list Event;
  stdout : list Out }.

Definition initial_world : World :=
  mkWorld empty_store [] [] 0 [] [] [] [].

Definition set_db (d : Store) (w : World) : World :=
  mkWorld d (counters w) (listeners w) (next_conn w) (instances w)
    (pending w) (trace w) (stdout w).
Definition set_counters (c : list DBStatementCounter.t) (w : World) : World :=
  mkWorld (db w) c (listeners w) (next_conn w) (instances w)
    (pending w) (trace w) (stdout w).
Definition set_listeners (l : list (nat * nat)) (w : World) : World :=
  mkWorld (db w) (counters w) l (next_conn w) (instances w)
    (pending w) (trace w) (stdout w).
Definition set_next_conn (n : nat) (w : World) : World :=
  mkWorld (db w) (counters w) (listeners w) n (instances w)
    (pending w) (trace w) (stdout w).
Definition set_instances (i : list Instance) (w : World) : World :=
  mkWorld (db w) (counters w) (listeners w) (next_conn w) i
    (pending w) (trace w) (stdout w).
Definition set_pending (p : list nat) (w : World) : World :=
  mkWorld (db w) (counters w) (listeners w) (next_conn w) (instances w)
    p (trace w) (stdout w).
Definition log (e : Event) (w : World) : World :=
  mkWorld (db w) (counters w) (listeners w) (next_conn w) (instances w)
    (pending w) (trace w ++ [e]) (stdout w).
Definition emit (o : Out) (w : World) : World :=
  mkWorld (db w) (counters w) (listeners w) (next_conn w) (instances w)
    (pending w) (trace w) (stdout w ++ [o]).

(** *** The monad of the script: state, and exceptions that keep the state *)

Definition M (A : Type) : Type := World -> (Exc + A) * World.

Definition ret {A} (a : A) : M A := fun w => (inr a, w).
Definition raise {A} (e : Exc) : M A := fun w => (inl e, w).
Definition bind {A B} (m : M A) (k : A -> M B) : M B :=
  fun w => match m w with
           | (inr a, w') => k a w'
           | (inl e, w') => (inl e, w')
           end.
Definition get : M World := fun w => (inr w, w).
Definition modify (f : World -> World) : M unit := fun w => (inr tt, f w).
Definition lift {A} (r : Exc + A) : M A := fun w => (r, w).

(** [try: body finally: cleanup], the shape of leaving a [with] block: the
    cleanup runs on both exits and an exception of the body propagates. *)
Definition finally {A} (body : M A) (cleanup : M unit) : M A :=
  fun w => match body w with
           | (r, w') => match cleanup w' with
                        | (inr _, w'') => (r, w'')
                        | (inl e, w'') => (inl e, w'')
                        end
           end.

Declare Scope script_scope.
Delimit Scope script_scope with script.
Notation "x <- m ;; k" := (bind m (fun x => k))
  (at level 61, m at next level, right associativity) : script_scope.
Notation "m ;; k" := (bind m (fun _ => k))
  (at level 61, right associativity) : script_scope.
Local Open Scope script_scope.

Definition print (o : Out) : M unit := modify (emit o).

(** *** Counter objects on the heap, and the event dispatch *)

(** Overwrite the object at reference [r]. *)
Fixpoint store_at {A} (r : nat) (x : A) (l : list A) : list A :=
  match l, r with
  | [], _ => []
  | _ :: l', 0 => x :: l'
  | y :: l', S r' => y :: store_at r' x l'
  end.

(** Call the bound method [callback] of the counter at reference [r]. *)
Definition call_callback (r : nat) (cs : list DBStatementCounter.t)
  : list DBStatementCounter.t :=
  match nth_error cs r with
  | Some c => store_at r (DBStatementCounter.callback c) cs
  | None => cs
  end.

(** The listeners [event.listen(conn, "after_execute", ..)] registered on
    one connection, in registration order. *)
Definition listeners_of (c : nat) (ls : list (nat * nat)) : list nat :=
  map snd (filter (fun l => Nat.eqb (fst l) c) ls).

(** One statement executed on connection [c]: the connection runs it and
    then fires [after_execute], calling every listener registered on [c]. *)
Definition execute (c : nat) : M unit :=
  modify (fun w =>
    log (EvExecute c)
      (set_counters
         (fold_left (fun cs r => call_callback r cs)
            (listeners_of c (listeners w)) (counters w)) w)).

(** [DBStatementCounter(conn)]: allocate the object, run [__init__] and
    register its [callback] on [conn]. *)
Definition new_counter (conn : nat) : M nat :=
  w <- get ;;
  let self := List.length (counters w) in
  modify (set_counters (counters w ++ [DBStatementCounter.__init__ conn])) ;;
  modify (fun w' => set_listeners (listeners w' ++ [(conn, self)]) w') ;;
  ret self.

(** Run a method that mutates the counter at reference [self]. *)
Definition mutate (f : DBStatementCounter.t -> DBStatementCounter.t)
  (self : nat) : M unit :=
  w <- get ;;
  match nth_error (counters w) self with
  | Some c => modify (set_counters (store_at self (f c) (counters w)))
  | None => raise AttributeError
  end.

(** Read an attribute or call a pure method of the counter at [self]. *)
Definition read {A} (f : DBStatementCounter.t -> A) (self : nat) : M A :=
  w <- get ;;
  match nth_error (counters w) self with
  | Some c => ret (f c)
  | None => raise AttributeError
  end.

Definition enter (self : nat) : M nat :=
  mutate DBStatementCounter.__enter__ self ;; ret self.

Definition exit (self : nat) : M unit :=
  mutate DBStatementCounter.__exit__ self.

Definition get_count (self : nat) : M nat :=
  read DBStatementCounter.get_count self.

(** [with DBStatementCounter(conn) as ctr: body]. *)
Definition with_counter {A} (conn : nat) (body : nat -> M A) : M A :=
  self <- new_counter conn ;;
  ctr <- enter self ;;
  finally (body ctr) (exit self).

(* ===================================================================== *)
(** ** Loaded objects, loading strategies and attribute access           *)
(* ===================================================================== *)

(** What the ORM remembers about a loaded instance: the connection of its
    session, the relationship path it was loaded along, and the loader
    options of the query that loaded it. *)
Record InstanceState := mkState {
  st_conn : nat;
  st_path : list string;
  st_options : list LoaderOption }.

(** Python values the scenarios handle. [VObj st row dict]: a loaded
    instance of a mapped class with the relationship attributes already
    populated in its [__dict__]. *)
#[warnings="-register-all"]
Inductive Value :=
| VNone
| VStr (s : string)
| VInt (n : nat)
| VObj (st : InstanceState) (row : Entity) (dict : list (string * Value))
| VList (items : list Value).

Definition truthy (v : Value) : bool :=
  match v with
  | VNone => false
  | VStr s => negb (String.eqb s "")
  | VInt n => negb (Nat.eqb n 0)
  | VObj _ _ _ => true
  | VList items => negb (Nat.eqb (List.length items) 0)
  end.

Definition opt_str (s : option string) : Value :=
  match s with Some x => VStr x | None => VNone end.
Definition opt_int (n : option nat) : Value :=
  match n with Some x => VInt x | None => VNone end.

(** A column attribute of a loaded instance; [None] when the class maps no
    column of that name. *)
Definition column_attr (e : Entity) (name : string) : option Value :=
  match e with
  | EPerson p =>
      if name =? "id" then Some (VInt (Person.id p))
      else if name =? "name" then Some (opt_str (Person.name p))
      else None
  | EUser u =>
      if name =? "id" then Some (VInt (User.id u))
      else if name =? "person_id" then Some (opt_int (User.person_id u))
      else None
  | ECompany c =>
      if name =? "id" then Some (VInt (Company.id c))
      else if name =? "name" then Some (opt_str (Company.name c))
      else None
  | EAccount a =>
      if name =? "id" then Some (VInt (Account.id a))
      else if name =? "status" then Some (opt_str (Account.status a))
      else if name =? "company_id" then Some (opt_int (Account.company_id a))
      else None
  | EUserAccount ua =>
      if name =? "account_id" then Some (VInt (UserAccount.account_id ua))
      else if name =? "user_id" then Some (VInt (UserAccount.user_id ua))
      else None
  end.

Fixpoint path_eqb (p q : list string) : bool :=
  match p, q with
  | [], [] => true
  | a :: p', b :: q' => String.eqb a b && path_eqb p' q'
  | _, _ => false
  end.

(** The strategy the options give a relationship path: that of the last
    option naming exactly this path; [None] leaves the default, lazy. *)
Definition strategy_at (opts : list LoaderOption) (path : list string)
  : option Strategy :=
  match find (fun o => path_eqb (lo_path o) path) (rev opts) with
  | Some o => Some (lo_strategy o)
  | None => None
  end.

(** The value of a relationship attribute from the related instances. *)
Definition rel_value (e : Entity) (r : string) (vs : list Value) : Value :=
  if uselist e r then VList vs
  else match vs with
       | [] => VNone
       | v :: _ => v
       end.

Definition max_path (opts : list LoaderOption) : nat :=
  fold_right (fun o m => Nat.max (List.length (lo_path o)) m) 0 opts.

(** Modelled from the spec: how the ORM materialises an instance under the
    loader options (the ORM is a third-party library, not part of app.py;
    spec section 4.2: "separate round-trip per relation vs single joined
    round-trip vs reuse of already-joined columns").

    [load_instance depth db conn opts joined path e] is the instance for row
    [e] reached along [path]. A relationship whose path is [Joined] is
    populated, in the same statement, with every related row (the LEFT OUTER
    JOIN of [joinedload]); one whose path is [ContainsEager] is populated
    from the entity that the query's own JOIN put in the current result row
    ([joined] holds that join path and row; it is [None] inside a lazy
    load); any other relationship stays out of [__dict__], to be loaded on
    access. [depth] bounds the nesting by the longest option path. *)
Fixpoint load_instance (depth : nat) (db : Store) (conn : nat)
  (opts : list LoaderOption) (joined : option (list string * list Entity))
  (path : list string) (e : Entity) : Value :=
  VObj (mkState conn path opts) e
    match depth with
    | 0 => []
    | S depth' =>
        flat_map
          (fun r =>
             let path' := path ++ [r] in
             match strategy_at opts path' with
             | Some Joined =>
                 match related db e r with
                 | Some es =>
                     [(r, rel_value e r
                            (map (load_instance depth' db conn opts None path')
                               es))]
                 | None => []
                 end
             | Some ContainsEager =>
                 match joined with
                 | Some (keys, row) =>
                     if path_eqb (firstn (List.length path') keys) path' then
                       match nth_error row (List.length path') with
                       | Some e' =>
                           [(r, rel_value e r
                                  [load_instance depth' db conn opts joined
                                     path' e'])]
                       | None => []
                       end
                     else []
                 | None => []
                 end
             | None => []
             end)
          (relationships e)
    end.

Fixpoint assoc (k : string) (d : list (string * Value)) : option Value :=
  match d with
  | [] => None
  | (k', v) :: d' => if String.eqb k k' then Some v else assoc k d'
  end.

(** A lazy load of a many-to-one relationship whose foreign key is NULL
    yields [None] without a statement; every other lazy load selects. *)
Definition lazy_selects (e : Entity) (r : string) : bool :=
  match e with
  | EUser u =>
      if r =? "person" then
        match User.person_id u with Some _ => true | None => false end
      else true
  | EAccount a =>
      if r =? "company" then
        match Account.company_id a with Some _ => true | None => false end
      else true
  | _ => true
  end.

(** Modelled from the spec: attribute access [obj.name] on a loaded
    instance, whose lazy case is the ORM's (spec section 4.2: "No directives
    means default lazy behavior: each relation traversal at access time
    triggers its own round trip"). A relationship attribute that is not in
    [__dict__] is loaded by one SELECT on the instance's connection. The
    loaded value is returned, not written back into the parent, and the
    session's identity map (which spares the SELECT of a many-to-one load
    whose target is already in the session) is left out: the scenarios read
    every attribute once, in a fresh session, and reach no instance twice.
    Reading an attribute of [None], or one that the value does not have,
    raises [AttributeError]. *)
Definition getattr (v : Value) (name : string) : M Value :=
  match v with
  | VObj st e dict =>
      match assoc name dict with
      | Some x => ret x
      | None =>
          match column_attr e name with
          | Some x => ret x
          | None =>
              w <- get ;;
              match related (db w) e name with
              | Some es =>
                  (if lazy_selects e name then execute (st_conn st)
                   else ret tt) ;;
                  let path' := st_path st ++ [name] in
                  let opts := st_options st in
                  ret (rel_value e name
                         (map (load_instance (max_path opts) (db w)
                                 (st_conn st) opts None path') es))
              | None => raise AttributeError
              end
          end
      end
  | _ => raise AttributeError
  end.

(** [obj[i]]. *)
Definition getitem (v : Value) (i : nat) : M Value :=
  match v with
  | VList items =>
      match nth_error items i with
      | Some x => ret x
      | None => raise IndexError
      end
  | _ => raise TypeError
  end.

(** Modelled from the spec: [Query.first()], the ORM's. One statement (the
    SELECT with LIMIT 1, eager joins included) runs on the session's
    connection, whatever the options; the first selected row becomes the
    instance, [None] when no row is selected. A join along a name that is no
    relationship raises before any statement. *)
Definition Query_first (q : Query) : M Value :=
  w <- get ;;
  match Query_rows q (db w) with
  | None => raise InvalidRequestError
  | Some rows =>
      execute (s_conn (q_session q)) ;;
      match rows with
      | [] => ret VNone
      | row :: _ =>
          match row with
          | [] => ret VNone
          | e :: _ =>
              ret (load_instance (max_path (q_options q)) (db w)
                     (s_conn (q_session q)) (q_options q)
                     (Some (q_join q, row)) [] e)
          end
      end
  end.

(* ===================================================================== *)
(** ** The session as [populate_db] uses it                               *)
(* ===================================================================== *)

(** [Session()]. The session works on one connection of the engine; the
    model gives it its connection at once. Opening the session, beginning
    its transaction and closing it execute no statement. *)
Definition new_session : M Session :=
  w <- get ;;
  modify (set_next_conn (S (next_conn w))) ;;
  ret (mkSession (next_conn w)).

Definition session_connection (session : Session) : M nat :=
  ret (s_conn session).

(** [with Session() as session: body]. *)
Definition with_session {A} (body : Session -> M A) : M A :=
  session <- new_session ;;
  finally (body session) (ret tt).

(** [cls(...)]: a new transient instance; the result is its reference. *)
Definition new_instance (i : Instance) : M nat :=
  w <- get ;;
  modify (set_instances (instances w ++ [i])) ;;
  ret (List.length (instances w)).

(** [session.add(obj)]. *)
Definition session_add (session : Session) (obj : nat) : M unit :=
  modify (fun w => log (EvAdd obj) (set_pending (pending w ++ [obj]) w)).

(** The key of the instance a relationship attribute refers to. An
    instance that was never flushed has none: the cascade that would insert
    it first is outside this model, and the flush raises. *)
Definition key_of (obj : option nat) (heap : list Instance)
  : Exc + option nat :=
  match obj with
  | None => inr None
  | Some h =>
      match nth_error heap h with
      | Some (IPerson (Some k) _) | Some (IUser (Some k) _)
      | Some (ICompany (Some k) _) | Some (IAccount (Some k) _ _) =>
          inr (Some k)
      | _ => inl InvalidRequestError
      end
  end.

Definition insert_person (p : Person.t) (d : Store) : Store :=
  mkStore (persons d ++ [p]) (users d) (companies d) (accounts d)
    (user_accounts d).
Definition insert_user (u : User.t) (d : Store) : Store :=
  mkStore (persons d) (users d ++ [u]) (companies d) (accounts d)
    (user_accounts d).
Definition insert_company (c : Company.t) (d : Store) : Store :=
  mkStore (persons d) (users d) (companies d ++ [c]) (accounts d)
    (user_accounts d).
Definition insert_account (a : Account.t) (d : Store) : Store :=
  mkStore (persons d) (users d) (companies d) (accounts d ++ [a])
    (user_accounts d).
Definition insert_user_account (ua : UserAccount.t) (d : Store) : Store :=
  mkStore (persons d) (users d) (companies d) (accounts d)
    (user_accounts d ++ [ua]).

Definition same_key (a b : UserAccount.t) : bool :=
  Nat.eqb (UserAccount.account_id a) (UserAccount.account_id b)
  && Nat.eqb (UserAccount.user_id a) (UserAccount.user_id b).

(** The INSERT a flush issues for one pending instance: the key columns are
    filled in (autoincrement, or the keys of the instances referred to), the
    statement runs on the session's connection, and the instance becomes
    persistent. A persistent instance is left alone. *)
Definition flush_one (session : Session) (obj : nat) : M unit :=
  w <- get ;;
  match nth_error (instances w) obj with
  | None => raise InvalidRequestError
  | Some (IPerson None name) =>
      let k := next_id (map Person.id (persons (db w))) in
      execute (s_conn session) ;;
      modify (fun w' => set_db (insert_person (Person.mk k name) (db w')) w') ;;
      modify (fun w' =>
        set_instances (store_at obj (IPerson (Some k) name) (instances w')) w')
  | Some (IUser None person) =>
      person_id <- lift (key_of person (instances w)) ;;
      let k := next_id (map User.id (users (db w))) in
      execute (s_conn session) ;;
      modify (fun w' => set_db (insert_user (User.mk k person_id) (db w')) w') ;;
      modify (fun w' =>
        set_instances (store_at obj (IUser (Some k) person) (instances w')) w')
  | Some (ICompany None name) =>
      let k := next_id (map Company.id (companies (db w))) in
      execute (s_conn session) ;;
      modify (fun w' =>
        set_db (insert_company (Company.mk k name) (db w')) w') ;;
      modify (fun w' =>
        set_instances (store_at obj (ICompany (Some k) name) (instances w')) w')
  | Some (IAccount None status company) =>
      company_id <- lift (key_of company (instances w)) ;;
      let k := next_id (map Account.id (accounts (db w))) in
      execute (s_conn session) ;;
      modify (fun w' =>
        set_db (insert_account (Account.mk k status company_id) (db w')) w') ;;
      modify (fun w' =>
        set_instances
          (store_at obj (IAccount (Some k) status company) (instances w')) w')
  | Some (IUserAccount false user account) =>
      user_id <- lift (key_of user (instances w)) ;;
      account_id <- lift (key_of account (instances w)) ;;
      match user_id, account_id with
      | Some u, Some a =>
          let row := UserAccount.mk a u in
          if existsb (same_key row) (user_accounts (db w)) then
            raise IntegrityError
          else
            execute (s_conn session) ;;
            modify (fun w' => set_db (insert_user_account row (db w')) w') ;;
            modify (fun w' =>
              set_instances
                (store_at obj (IUserAccount true user account) (instances w'))
                w')
      | _, _ => raise IntegrityError
      end
  | Some _ => ret tt
  end.

Fixpoint for_each {A} (l : list A) (body : A -> M unit) : M unit :=
  match l with
  | [] => ret tt
  | x :: l' => body x ;; for_each l' body
  end.

Definition flush_pending (session : Session) : M unit :=
  w <- get ;;
  for_each (pending w) (flush_one session) ;;
  modify (set_pending []).

(** [session.flush()]. *)
Definition session_flush (session : Session) : M unit :=
  flush_pending session ;; modify (log EvFlush).

(** [session.commit()]: whatever is still pending is flushed, then the
    transaction is committed. *)
Definition session_commit (session : Session) : M unit :=
  flush_pending session ;; modify (log EvCommit).

(** The body of the loop of [populate_db] (app.py, lines 102-117). *)
Definition populate_chain (session : Session) (i : nat) : M unit :=
  person <- new_instance (IPerson None (Some ("test" ++ str i)%string)) ;;
  session_add session person ;;
  session_flush session ;;
  user <- new_instance (IUser None (Some person)) ;;
  session_add session user ;;
  session_flush session ;;
  company <- new_instance (ICompany None (Some ("company" ++ str i)%string)) ;;
  session_add session company ;;
  session_flush session ;;
  account <- new_instance (IAccount None (Some "x{i}") (Some company)) ;;
  session_add session account ;;
  session_flush session ;;
  user_account <- new_instance (IUserAccount false (Some user) (Some account)) ;;
  session_add session user_account ;;
  session_flush session ;;
  session_commit session.

(** app.py, lines 98-117. *)
Definition populate_db (n : nat) : M unit :=
  with_session (fun session =>
    for_each (seq 0 n) (populate_chain session)).

(* ===================================================================== *)
(** ** The three scenarios (app.py, lines 141-199)                       *)
(* ===================================================================== *)

(** [person.user.my_accounts[0].account.company.name]. *)
Definition dereference (person : Value) : M Value :=
  v1 <- getattr person "user" ;;
  v2 <- getattr v1 "my_accounts" ;;
  v3 <- getitem v2 0 ;;
  v4 <- getattr v3 "account" ;;
  v5 <- getattr v4 "company" ;;
  getattr v5 "name".

(** [person = result.first()] and the guarded dereference that follows it in
    each scenario (lines 149-151, 172-174, 195-197). *)
Definition first_and_dereference (result : Query) : M unit :=
  person <- Query_first result ;;
  if truthy person then
    a <- dereference person ;; ret tt
  else ret tt.

(** The code the three scenarios share, up to the banner and the options. *)
Definition scenario (banner : string) (options : OptionsArg) : M unit :=
  print (OutStr "--------") ;;
  print (OutStr banner) ;;
  with_session (fun session =>
    conn <- session_connection session ;;
    ctr <- with_counter conn (fun ctr =>
      result <- lift (get_query session options) ;;
      print (OutStr "Query") ;;
      print (OutQuery result) ;;
      first_and_dereference result ;;
      ret ctr) ;;
    print (OutStr "Statements") ;;
    n <- read DBStatementCounter.count ctr ;;
    print (OutInt n)).

Definition simple_query : M unit := scenario "simple" ArgNone.

Definition joinedload_options : list LoaderOption :=
  [ joinedload ["user"];
    joinedload ["user"; "my_accounts"];
    joinedload ["user"; "my_accounts"; "account"];
    joinedload ["user"; "my_accounts"; "account"; "company"] ].

Definition joinedload_query : M unit :=
  scenario "joinedload" (ArgList joinedload_options).

Definition eager_options : list LoaderOption :=
  [ contains_eager ["user"];
    contains_eager ["user"; "my_accounts"];
    contains_eager ["user"; "my_accounts"; "account"];
    contains_eager ["user"; "my_accounts"; "account"; "company"] ].

(** The banner of this one is "joinedload" in the source too. *)
Definition eager_query : M unit :=
  scenario "joinedload" (ArgList eager_options).

(** The last integer in what was printed. *)
Definition last_int (out : list Out) : option nat :=
  fold_left (fun acc o => match o with OutInt n => Some n | _ => acc end)
    out None.

(** The count a scenario run in [w] reported: the last integer it printed,
    when it returned; [None] when it raised. *)
Definition reported (m : M unit) (w : World) : option nat :=
  match m (mkWorld (db w) (counters w) (listeners w) (next_conn w)
             (instances w) (pending w) (trace w) []) with
  | (inr _, w') => last_int (stdout w')
  | (inl _, _) => None
  end.

(** The statements a run executed, by connection. *)
Definition executed (t : list Event) : list nat :=
  flat_map (fun e => match e with EvExecute c => [c] | _ => [] end) t.

(* ===================================================================== *)
(** ** Vocabulary of the properties                                      *)
(* ===================================================================== *)

(** The counter object [cnt] sits at reference [self] and its callback is
    registered once, on its own connection only: what [new_counter]
    establishes. *)
Definition attached (w : World) (self : nat) (cnt : DBStatementCounter.t)
  : Prop :=
  nth_error (counters w) self = Some cnt /\
  forall c, count_occ Nat.eq_dec (listeners_of c (listeners w)) self
            = if Nat.eqb c (DBStatementCounter.conn cnt) then 1 else 0.

(** References held by listeners point into the heap. *)
Definition refs_ok (w : World) : Prop :=
  forall l, In l (listeners w) -> snd l < List.length (counters w).

(** Statements executed one after the other, each on its own connection. *)
Definition execute_all (conns : list nat) : M unit := for_each conns execute.

(** What may happen to a counter during its lifetime. *)
Inductive Op :=
| OpEnter
| OpExit
| OpExecute (c : nat)
| OpGetCount
| OpNewCounter (c : nat).

Definition run_op (self : nat) (op : Op) : M unit :=
  match op with
  | OpEnter => enter self ;; ret tt
  | OpExit => exit self
  | OpExecute c => execute c
  | OpGetCount => get_count self ;; ret tt
  | OpNewCounter c => new_counter c ;; ret tt
  end.

(** A world in which one counter has been built on connection 0 and has
    already counted three statements in an earlier scope. *)
Definition used_counter_world : World :=
  mkWorld empty_store [DBStatementCounter.mk 0 3 false] [(0, 0)] 1
    [] [] [] [].

(** The five rows of chain [i], as [populate_db] inserts them into empty
    tables: every key is [i + 1]. *)
Definition chain_person (i : nat) : Person.t :=
  Person.mk (S i) (Some ("test" ++ str i)%string).
Definition chain_user (i : nat) : User.t :=
  User.mk (S i) (Some (S i)).
Definition chain_company (i : nat) : Company.t :=
  Company.mk (S i) (Some ("company" ++ str i)%string).
Definition chain_account (i : nat) : Account.t :=
  Account.mk (S i) (Some "x{i}") (Some (S i)).
Definition chain_user_account (i : nat) : UserAccount.t :=
  UserAccount.mk (S i) (S i).

(** The store that holds the chains 0 .. n-1 and nothing else. *)
Definition seeded (n : nat) : Store :=
  mkStore (map chain_person (seq 0 n)) (map chain_user (seq 0 n))
    (map chain_company (seq 0 n)) (map chain_account (seq 0 n))
    (map chain_user_account (seq 0 n)).

(** What a flush leaves alone. *)
Definition frame (w w' : World) : Prop :=
  listeners w' = listeners w /\ next_conn w' = next_conn w /\
  List.length (counters w') = List.length (counters w) /\
  stdout w' = stdout w /\ pending w' = pending w.

(** The rows [extend] yields, none when it is undefined. *)
Definition extension (db : Store) (k : string) (row : list Entity)
  : list (list Entity) :=
  match extend db k row with
  | Some ext => ext
  | None => []
  end.

(** A full chain of the store: one row of each table, linked by the
    foreign keys the relationships follow. *)
Definition is_chain (db : Store) (p : Person.t) (u : User.t)
  (ua : UserAccount.t) (a : Account.t) (c : Company.t) : Prop :=
  In p (persons db) /\ In u (users db) /\ In ua (user_accounts db) /\
  In a (accounts db) /\ In c (companies db) /\
  User.person_id u = Some (Person.id p) /\
  UserAccount.user_id ua = User.id u /\
  Account.id a = UserAccount.account_id ua /\
  Account.company_id a = Some (Company.id c).

(** The joined row of a chain, root first. *)
Definition chain_row (p : Person.t) (u : User.t) (ua : UserAccount.t)
  (a : Account.t) (c : Company.t) : list Entity :=
  [EPerson p; EUser u; EUserAccount ua; EAccount a; ECompany c].

(** The join path and the filter of [get_query]. *)
Definition join_keys : list string :=
  ["user"; "my_accounts"; "account"; "company"].

(** The four joins of [get_query], one after the other. *)
Definition joined1 (db : Store) : list (list Entity) :=
  flat_map (extension db "user") (map (fun e => [e]) (table db CPerson)).
Definition joined2 (db : Store) : list (list Entity) :=
  flat_map (extension db "my_accounts") (joined1 db).
Definition joined3 (db : Store) : list (list Entity) :=
  flat_map (extension db "account") (joined2 db).
Definition joined4 (db : Store) : list (list Entity) :=
  flat_map (extension db "company") (joined3 db).

Definition where_clause : list Criterion :=
  [Ilike Person_name "test%"; Ilike Account_status "x%";
   Ilike Company_name "company%"].

(** The ghost trace of iteration [i] of [populate_db] on connection [c]:
    five times add, INSERT, flush, then the commit. *)
Definition chain_trace (c i : nat) : list Event :=
  [EvAdd (5 * i); EvExecute c; EvFlush;
   EvAdd (5 * i + 1); EvExecute c; EvFlush;
   EvAdd (5 * i + 2); EvExecute c; EvFlush;
   EvAdd (5 * i + 3); EvExecute c; EvFlush;
   EvAdd (5 * i + 4); EvExecute c; EvFlush;
   EvCommit].

(** The joined row of chain [i]. *)
Definition seeded_row (i : nat) : list Entity :=
  chain_row (chain_person i) (chain_user i) (chain_user_account i)
    (chain_account i) (chain_company i).

(** The state inside the counting scope of a scenario that started in [w0]:
    the counter at [self] is attached to connection [c], is counting and has
    counted [k] statements; [k] statements ran on [c] since [w0]. *)
Definition in_scope (w0 : World) (c self k : nat) (w : World) : Prop :=
  attached w self (DBStatementCounter.mk c k true) /\
  refs_ok w /\
  db w = db w0 /\ listeners w = listeners w0 /\ stdout w = stdout w0 /\
  next_conn w = next_conn w0 /\
  executed (trace w) = executed (trace w0) ++ repeat c k.

(** The instance [Query.first()] returns for the rows a query selects. *)
Definition first_value (q : Query) (d : Store) (rows : list (list Entity))
  : Value :=
  match rows with
  | (e :: _) as row :: _ =>
      load_instance (max_path (q_options q)) d (s_conn (q_session q))
        (q_options q) (Some (q_join q, row)) [] e
  | _ => VNone
  end.

(** The world the scenarios start in: [populate_db(n)] has run on the
    freshly created, empty schema. *)
Definition seeded_world (n : nat) : World :=
  snd (populate_db n initial_world).

(** The number of statements a run executed, on any connection. *)
Definition statements (m : M unit) (w : World) : nat :=
  List.length (executed (trace (snd (m w))))
  - List.length (executed (trace w)).

(** The script from the seeding on (lines 123 and 202-204), run on the
    schema that lines 120-122 have just created empty; the source seeds the
    default [n = 10]. *)
Definition script (n : nat) : M unit :=
  populate_db n ;; simple_query ;; joinedload_query ;; eager_query.

(** The integers a run printed, in order. *)
Definition printed_counts (out : list Out) : list nat :=
  flat_map (fun o => match o with OutInt n => [n] | _ => [] end) out.

(** With these options the query has no first result in [w]: [first()]
    returns [None], and fetching and dereferencing does no more than
    [first()] did. *)
Definition no_first_result (options : OptionsArg) (w : World) : Prop :=
  exists q w1,
    get_query (mkSession (next_conn w)) options = inr q /\
    Query_first q w = (inr VNone, w1) /\
    first_and_dereference q w = (inr tt, w1).

(** A store in which the first user has two accounts and the first of them
    has no company: the person is selected through the second account, and
    the dereference goes through the first. *)
Definition broken_store : Store :=
  mkStore
    [Person.mk 1 (Some "test0")]
    [User.mk 1 (Some 1)]
    [Company.mk 1 (Some "company0")]
    [Account.mk 1 (Some "x{i}") None; Account.mk 2 (Some "x{i}") (Some 1)]
    [UserAccount.mk 1 1; UserAccount.mk 2 1].

Definition broken_world : World :=
  mkWorld broken_store [] [] 0 [] [] [] [].

(** A computation that prints nothing. *)
Definition quiet {A} (m : M A) : Prop :=
  forall w, stdout (snd (m w)) = stdout w.

(** A computation that leaves the component [f] of the world as it found
    it, whether it returns or raises. *)
Definition keeps {A B} (f : World -> B) (m : M A) : Prop :=
  forall w, f (snd (m w)) = f w.

(** Every loaded instance inside a value belongs to a session that works on
    connection [c]. *)
Fixpoint conn_ok (c : nat) (v : Value) : bool :=
  match v with
  | VObj st _ dict =>
      Nat.eqb (st_conn st) c && forallb (fun kv => conn_ok c (snd kv)) dict
  | VList items => forallb (conn_ok c) items
  | _ => true
  end.

(** From [w] to [w'] the counters built on other connections than [c] stay
    what they were. *)
Definition others_kept (c : nat) (w w' : World) : Prop :=
  forall r cnt,
    attached w r cnt -> DBStatementCounter.conn cnt <> c -> attached w' r cnt.

(** Inside the counting scope on connection [c], the computation [m]
    executes at most [n] statements, all of them on [c] and all of them
    counted; a value it returns satisfies [post]. *)
Definition costs {A} (c self n : nat) (m : M A) (post : A -> Prop) : Prop :=
  forall ws k w,
    in_scope ws c self k w ->
    exists r w' j,
      m w = (r, w') /\ j <= n /\ in_scope ws c self (k + j) w' /\
      others_kept c w w' /\
      match r with
      | inr a => post a
      | inl _ => True
      end.

(** An instance that no flush has inserted yet. *)
Definition transient (i : Instance) : bool :=
  match i with
  | IPerson None _ | IUser None _ | ICompany None _ | IAccount None _ _
  | IUserAccount false _ _ => true
  | _ => false
  end.

(** The ghost trace of one iteration of [populate_db] on connection [c]
    when the heap of instances holds [h] objects already: five times add,
    INSERT, flush, then the commit. *)
Definition chain_events (c h : nat) : list Event :=
  [EvAdd h; EvExecute c; EvFlush;
   EvAdd (h + 1); EvExecute c; EvFlush;
   EvAdd (h + 2); EvExecute c; EvFlush;
   EvAdd (h + 3); EvExecute c; EvFlush;
   EvAdd (h + 4); EvExecute c; EvFlush;
   EvCommit].

(** Referential integrity of [user_account.account_id]: every row names an
    account that is in the store. *)
Definition accounts_exist (d : Store) : Prop :=
  forall ua,
    In ua (user_accounts d) ->
    exists a, In a (accounts d) /\ Account.id a = UserAccount.account_id ua.

(** The store after one more iteration [i] of [populate_db]: one row more
    in each table, each with the next key of its table, linked into a
    chain. *)
Definition append_chain (d : Store) (i : nat) : Store :=
  let p := next_id (map Person.id (persons d)) in
  let u := next_id (map User.id (users d)) in
  let c := next_id (map Company.id (companies d)) in
  let a := next_id (map Account.id (accounts d)) in
  mkStore
    (persons d ++ [Person.mk p (Some ("test" ++ str i)%string)])
    (users d ++ [User.mk u (Some p)])
    (companies d ++ [Company.mk c (Some ("company" ++ str i)%string)])
    (accounts d ++ [Account.mk a (Some "x{i}") (Some c)])
    (user_accounts d ++ [UserAccount.mk a u]).

(** A world in which a counter built on connection 0 is inside its scope
    and has counted three statements, over the store of [broken_store]. *)
Definition watched_world : World :=
  mkWorld broken_store [DBStatementCounter.mk 0 3 true] [(0, 0)] 1
    [] [] [] [].

(** The number of commits in a trace. *)
Definition commits (t : list Event) : nat :=
  List.length (filter (fun e => match e with EvCommit => true | _ => false end) t).

(* ===================================================================== *)
(** * Properties                                                          *)
(* ===================================================================== *)

(** ** The object heap *)

Section Heap.
Context {A : Type}.

Lemma length_store_at (r : nat) (x : A) (l : list A) :
  List.length (store_at r x l) = List.length l.
Proof.
  revert r; induction l as [|y l IH]; intros [|r]; simpl; auto.
Qed.

Lemma nth_error_store_at_eq (r : nat) (x : A) (l : list A) :
  r < List.length l -> nth_error (store_at r x l) r = Some x.
Proof.
  revert r; induction l as [|y l IH]; intros [|r] H; simpl in *;
    try lia; auto.
  apply IH; lia.
Qed.

Lemma nth_error_store_at_ne (r r' : nat) (x : A) (l : list A) :
  r <> r' -> nth_error (store_at r x l) r' = nth_error l r'.
Proof.
  revert r r'; induction l as [|y l IH]; intros [|r] [|r'] H; simpl;
    try congruence; auto.
Qed.

Lemma nth_error_snoc (l : list A) (x : A) :
  nth_error (l ++ [x]) (List.length l) = Some x.
Proof.
  induction l; simpl; auto.
Qed.

Lemma nth_error_mid (l l' : list A) (x : A) :
  nth_error (l ++ x :: l') (List.length l) = Some x.
Proof.
  induction l; simpl; auto.
Qed.

Lemma store_at_snoc (l : list A) (x y : A) :
  store_at (List.length l) y (l ++ [x]) = l ++ [y].
Proof.
  induction l; simpl; congruence.
Qed.

End Heap.

(** ** DBStatementCounter *)

Lemma callback_iter (k : nat) (cnt : DBStatementCounter.t) :
  Nat.iter k DBStatementCounter.callback cnt
  = if DBStatementCounter.do_count cnt
    then DBStatementCounter.mk (DBStatementCounter.conn cnt)
           (DBStatementCounter.count cnt + k) true
    else cnt.
Proof.
  induction k as [|k IH]; simpl.
  - destruct cnt as [c n []]; simpl; auto. f_equal; lia.
  - rewrite IH. destruct cnt as [c n []]; simpl; auto.
    unfold DBStatementCounter.callback; simpl. f_equal; lia.
Qed.

Lemma fire_spec (refs : list nat) :
  forall (cs : list DBStatementCounter.t) self cnt,
    nth_error cs self = Some cnt ->
    nth_error (fold_left (fun cs r => call_callback r cs) refs cs) self
    = Some (Nat.iter (count_occ Nat.eq_dec refs self)
              DBStatementCounter.callback cnt).
Proof.
  induction refs as [|r refs IH]; intros cs self cnt H; simpl; auto.
  destruct (Nat.eq_dec r self) as [->|Hne].
  - unfold call_callback at 2. rewrite H.
    rewrite (IH _ self (DBStatementCounter.callback cnt)).
    + now rewrite Nat.iter_succ_r.
    + apply nth_error_store_at_eq. apply nth_error_Some. congruence.
  - apply IH. unfold call_callback.
    destruct (nth_error cs r); auto.
    now rewrite nth_error_store_at_ne.
Qed.

Lemma fire_length (refs : list nat) :
  forall cs : list DBStatementCounter.t,
    List.length (fold_left (fun cs r => call_callback r cs) refs cs)
    = List.length cs.
Proof.
  induction refs as [|r refs IH]; intros cs; simpl; auto.
  rewrite IH. unfold call_callback.
  destruct (nth_error cs r); auto using length_store_at.
Qed.

(** One statement on connection [c]: the counter moves by one exactly when
    [c] is its connection and it is counting. *)
Lemma execute_attached (w : World) (c self : nat) cnt :
  attached w self cnt ->
  exists w',
    execute c w = (inr tt, w') /\
    db w' = db w /\ listeners w' = listeners w /\
    stdout w' = stdout w /\ next_conn w' = next_conn w /\
    attached w' self
      (if Nat.eqb c (DBStatementCounter.conn cnt)
       then DBStatementCounter.callback cnt else cnt).
Proof.
  intros [Hn Hl]. eexists; split; [reflexivity|].
  repeat split; simpl; auto.
  - rewrite (fire_spec _ _ _ _ Hn), Hl.
    destruct (Nat.eqb c (DBStatementCounter.conn cnt)); reflexivity.
  - intros c'. rewrite Hl.
    destruct (Nat.eqb c (DBStatementCounter.conn cnt)); auto.
    unfold DBStatementCounter.callback.
    destruct (DBStatementCounter.do_count cnt); auto.
Qed.

Lemma mutate_attached (f : DBStatementCounter.t -> DBStatementCounter.t)
  (w : World) (self : nat) cnt :
  DBStatementCounter.conn (f cnt) = DBStatementCounter.conn cnt ->
  attached w self cnt ->
  exists w',
    mutate f self w = (inr tt, w') /\
    db w' = db w /\ listeners w' = listeners w /\
    stdout w' = stdout w /\ next_conn w' = next_conn w /\
    trace w' = trace w /\
    attached w' self (f cnt).
Proof.
  intros Hc [Hn Hl]. unfold mutate, bind, get. rewrite Hn.
  eexists; split; [reflexivity|]. repeat split; simpl; auto.
  - apply nth_error_store_at_eq, nth_error_Some. congruence.
  - intros c. now rewrite Hc.
Qed.

Lemma read_attached {A} (f : DBStatementCounter.t -> A)
  (w : World) (self : nat) cnt :
  attached w self cnt -> read f self w = (inr (f cnt), w).
Proof.
  intros [Hn _]. unfold read, bind, get. now rewrite Hn.
Qed.

Lemma listeners_of_app (c : nat) (l1 l2 : list (nat * nat)) :
  listeners_of c (l1 ++ l2) = listeners_of c l1 ++ listeners_of c l2.
Proof.
  unfold listeners_of. now rewrite filter_app, map_app.
Qed.

Lemma listeners_of_bound (c n : nat) (ls : list (nat * nat)) :
  (forall l, In l ls -> snd l < n) ->
  forall r, In r (listeners_of c ls) -> r < n.
Proof.
  intros H r Hr. unfold listeners_of in Hr.
  apply in_map_iff in Hr as [l [<- Hl]].
  apply filter_In in Hl as [Hl _]. auto.
Qed.

(** [DBStatementCounter(conn)] yields an attached counter with count 0 that
    is not counting, and disturbs no other counter. *)
Lemma new_counter_attached (w : World) (conn : nat) :
  refs_ok w ->
  exists w',
    new_counter conn w = (inr (List.length (counters w)), w') /\
    db w' = db w /\ stdout w' = stdout w /\ next_conn w' = next_conn w /\
    trace w' = trace w /\
    listeners w' = listeners w ++ [(conn, List.length (counters w))] /\
    refs_ok w' /\
    attached w' (List.length (counters w)) (DBStatementCounter.__init__ conn) /\
    forall r cnt, attached w r cnt -> attached w' r cnt.
Proof.
  intros Hok. eexists; split; [cbv [new_counter bind get modify ret]; reflexivity|].
  simpl. repeat split; auto; simpl.
  - unfold refs_ok; simpl. intros l Hl. rewrite length_app; simpl.
    apply in_app_iff in Hl as [Hl|[<-|[]]]; [apply Hok in Hl|simpl]; lia.
  - apply nth_error_snoc.
  - intros c. rewrite listeners_of_app, count_occ_app.
    assert (Hz : count_occ Nat.eq_dec (listeners_of c (listeners w))
                   (List.length (counters w)) = 0).
    { apply count_occ_not_In. intros Hin.
      apply (listeners_of_bound c _ _ Hok) in Hin. lia. }
    rewrite Hz. unfold listeners_of; simpl. destruct (Nat.eqb conn c) eqn:E.
    + apply Nat.eqb_eq in E as ->. rewrite Nat.eqb_refl. simpl.
      destruct (Nat.eq_dec _ _); congruence.
    + rewrite Nat.eqb_sym, E. reflexivity.
  - destruct H as [Hn _]. rewrite nth_error_app1; auto.
    apply nth_error_Some. congruence.
  - intros c. destruct H as [Hn Hl]. rewrite listeners_of_app, count_occ_app, Hl.
    assert (r < List.length (counters w)) by (apply nth_error_Some; congruence).
    unfold listeners_of; simpl. destruct (Nat.eqb conn c); simpl.
    + destruct (Nat.eq_dec _ _); lia.
    + lia.
Qed.

Lemma execute_refs_ok (w : World) (c : nat) :
  refs_ok w -> refs_ok (snd (execute c w)).
Proof.
  unfold refs_ok; simpl. intros H l Hl. rewrite fire_length. auto.
Qed.

Lemma mutate_refs_ok f (w : World) (self : nat) :
  refs_ok w -> refs_ok (snd (mutate f self w)).
Proof.
  unfold refs_ok, mutate, bind, get. intros H.
  destruct (nth_error (counters w) self); simpl; auto.
  intros l Hl. rewrite length_store_at. auto.
Qed.

Lemma callback_conn (cnt : DBStatementCounter.t) :
  DBStatementCounter.conn (DBStatementCounter.callback cnt)
  = DBStatementCounter.conn cnt.
Proof.
  unfold DBStatementCounter.callback.
  destruct (DBStatementCounter.do_count cnt); reflexivity.
Qed.

Lemma execute_all_attached (conns : list nat) :
  forall (w : World) (self : nat) cnt,
    refs_ok w -> attached w self cnt ->
    exists w',
      execute_all conns w = (inr tt, w') /\
      db w' = db w /\ listeners w' = listeners w /\
      stdout w' = stdout w /\ next_conn w' = next_conn w /\
      refs_ok w' /\
      attached w' self
        (Nat.iter (count_occ Nat.eq_dec conns (DBStatementCounter.conn cnt))
           DBStatementCounter.callback cnt).
Proof.
  induction conns as [|c conns IH]; intros w self cnt Hok Ha.
  - exists w. simpl. repeat split; auto; apply Ha.
  - destruct (execute_attached w c self cnt Ha) as (w1 & E1 & Hd1 & Hl1 & Ho1 & Hn1 & Ha1).
    assert (Hok1 : refs_ok w1).
    { replace w1 with (snd (execute c w)) by now rewrite E1.
      now apply execute_refs_ok. }
    destruct (IH _ _ _ Hok1 Ha1) as (w2 & E2 & Hd2 & Hl2 & Ho2 & Hn2 & Hok2 & Ha2).
    exists w2. split.
    { unfold execute_all in *. simpl. unfold bind at 1. now rewrite E1. }
    repeat (split; [congruence || assumption|]).
    match goal with
    | H : attached w2 self ?x |- attached w2 self ?y =>
        replace y with x; [exact H|]
    end.
    simpl. destruct (Nat.eqb_spec c (DBStatementCounter.conn cnt)) as [->|Hne].
    + destruct (Nat.eq_dec _ _); [|congruence].
      now rewrite callback_conn, Nat.iter_succ_r.
    + destruct (Nat.eq_dec _ _); [congruence|]. reflexivity.
Qed.

(** Sequencing a step whose outcome is known. *)
Lemma bind_ok {A B} {m : M A} (k : A -> M B) {w w' : World} {a : A} :
  m w = (inr a, w') -> bind m k w = k a w'.
Proof.
  intros E. unfold bind. now rewrite E.
Qed.

Lemma enter_attached (w : World) (self : nat) cnt :
  refs_ok w -> attached w self cnt ->
  exists w',
    enter self w = (inr self, w') /\
    db w' = db w /\ listeners w' = listeners w /\
    stdout w' = stdout w /\ next_conn w' = next_conn w /\
    trace w' = trace w /\ refs_ok w' /\
    attached w' self (DBStatementCounter.__enter__ cnt).
Proof.
  intros Hok Ha.
  destruct (mutate_attached DBStatementCounter.__enter__ w self cnt eq_refl Ha)
    as (w' & E & H).
  exists w'. split.
  { unfold enter. now rewrite (bind_ok _ E). }
  repeat split; try apply H.
  replace w' with (snd (mutate DBStatementCounter.__enter__ self w))
    by now rewrite E.
  now apply mutate_refs_ok.
Qed.

Lemma exit_attached (w : World) (self : nat) cnt :
  refs_ok w -> attached w self cnt ->
  exists w',
    exit self w = (inr tt, w') /\
    db w' = db w /\ listeners w' = listeners w /\
    stdout w' = stdout w /\ next_conn w' = next_conn w /\
    trace w' = trace w /\ refs_ok w' /\
    attached w' self (DBStatementCounter.__exit__ cnt).
Proof.
  intros Hok Ha.
  destruct (mutate_attached DBStatementCounter.__exit__ w self cnt eq_refl Ha)
    as (w' & E & H).
  exists w'. split; [exact E|].
  repeat split; try apply H.
  replace w' with (snd (mutate DBStatementCounter.__exit__ self w))
    by now rewrite E.
  now apply mutate_refs_ok.
Qed.

Lemma get_count_attached (w : World) (self : nat) cnt :
  attached w self cnt ->
  get_count self w = (inr (DBStatementCounter.count cnt), w).
Proof.
  intros Ha. unfold get_count. now rewrite (read_attached _ _ _ _ Ha).
Qed.

Lemma run_op_attached (op : Op) (w : World) (self : nat) cnt :
  refs_ok w -> attached w self cnt ->
  exists w' cnt',
    run_op self op w = (inr tt, w') /\ refs_ok w' /\
    attached w' self cnt' /\
    DBStatementCounter.count cnt <= DBStatementCounter.count cnt'.
Proof.
  intros Hok Ha. destruct op as [| |c| |c]; simpl.
  - destruct (enter_attached _ _ _ Hok Ha) as (w' & E & H).
    exists w', (DBStatementCounter.__enter__ cnt).
    rewrite (bind_ok _ E). repeat split; try apply H; simpl; lia.
  - destruct (exit_attached _ _ _ Hok Ha) as (w' & E & H).
    exists w', (DBStatementCounter.__exit__ cnt).
    repeat split; try apply H; auto; simpl; lia.
  - destruct (execute_attached w c self cnt Ha) as (w' & E & H).
    eexists w', _. split; [exact E|]. split; [|split; [apply H|]].
    + replace w' with (snd (execute c w)) by now rewrite E.
      now apply execute_refs_ok.
    + destruct (Nat.eqb c _); [|lia].
      unfold DBStatementCounter.callback.
      destruct (DBStatementCounter.do_count cnt); simpl; lia.
  - exists w, cnt. rewrite (bind_ok _ (get_count_attached _ _ _ Ha)).
    repeat split; auto; apply Ha.
  - destruct (new_counter_attached w c Hok) as (w' & E & H).
    exists w', cnt. rewrite (bind_ok _ E).
    repeat split; try apply H; auto; apply H, Ha.
Qed.

Lemma run_ops_attached (ops : list Op) :
  forall (w : World) (self : nat) cnt,
    refs_ok w -> attached w self cnt ->
    exists w' cnt',
      for_each ops (run_op self) w = (inr tt, w') /\ refs_ok w' /\
      attached w' self cnt' /\
      DBStatementCounter.count cnt <= DBStatementCounter.count cnt'.
Proof.
  induction ops as [|op ops IH]; intros w self cnt Hok Ha.
  - exists w, cnt. repeat split; auto; apply Ha.
  - destruct (run_op_attached op _ _ _ Hok Ha) as (w1 & c1 & E1 & Hok1 & Ha1 & Hle1).
    destruct (IH _ _ _ Hok1 Ha1) as (w2 & c2 & E2 & Hok2 & Ha2 & Hle2).
    exists w2, c2. simpl. rewrite (bind_ok _ E1).
    repeat split; auto; try apply Ha2. lia.
Qed.

(** Claim C3. A [DBStatementCounter] built on connection [conn] counts
    exactly the statements executed on [conn] while its scope is entered:
    with any statements run before [__enter__], inside the scope and after
    [__exit__], each on a connection of its own choice, [get_count] returns
    0 before the scope, the number of statements that ran on [conn] inside
    the scope at its end, and the same number after it. *)
Theorem counter_counts_inside_scope_only :
  forall (w : World) (conn : nat) (before inside after : list nat),
    refs_ok w ->
    exists w',
      (self <- new_counter conn ;;
       execute_all before ;;
       n0 <- get_count self ;;
       ctr <- enter self ;;
       execute_all inside ;;
       n1 <- get_count ctr ;;
       exit ctr ;;
       execute_all after ;;
       n2 <- get_count ctr ;;
       ret (n0, n1, n2)) w
      = (inr (0, count_occ Nat.eq_dec inside conn,
              count_occ Nat.eq_dec inside conn), w').
Proof.
  intros w conn before inside after Hok.
  destruct (new_counter_attached w conn Hok)
    as (w1 & E1 & _ & _ & _ & _ & _ & Hok1 & Ha1 & _).
  rewrite (bind_ok _ E1).
  destruct (execute_all_attached before _ _ _ Hok1 Ha1)
    as (w2 & E2 & _ & _ & _ & _ & Hok2 & Ha2).
  rewrite (bind_ok _ E2), callback_iter in *; simpl in Ha2.
  rewrite (bind_ok _ (get_count_attached _ _ _ Ha2)); simpl.
  destruct (enter_attached _ _ _ Hok2 Ha2) as (w3 & E3 & _ & _ & _ & _ & _ & Hok3 & Ha3).
  rewrite (bind_ok _ E3).
  destruct (execute_all_attached inside _ _ _ Hok3 Ha3)
    as (w4 & E4 & _ & _ & _ & _ & Hok4 & Ha4).
  rewrite (bind_ok _ E4), callback_iter in *; simpl in Ha4.
  rewrite (bind_ok _ (get_count_attached _ _ _ Ha4)); simpl.
  destruct (exit_attached _ _ _ Hok4 Ha4) as (w5 & E5 & _ & _ & _ & _ & _ & Hok5 & Ha5).
  rewrite (bind_ok _ E5).
  destruct (execute_all_attached after _ _ _ Hok5 Ha5)
    as (w6 & E6 & _ & _ & _ & _ & Hok6 & Ha6).
  rewrite (bind_ok _ E6), callback_iter in *; simpl in Ha6.
  rewrite (bind_ok _ (get_count_attached _ _ _ Ha6)); simpl.
  now exists w6.
Qed.

Lemma counter_counts_inside_scope_only_witness :
  exists w',
    (self <- new_counter 0 ;;
     execute_all [0; 1] ;;
     n0 <- get_count self ;;
     ctr <- enter self ;;
     execute_all [0; 1; 0] ;;
     n1 <- get_count ctr ;;
     exit ctr ;;
     execute_all [0] ;;
     n2 <- get_count ctr ;;
     ret (n0, n1, n2)) initial_world
    = (inr (0, 2, 2), w').
Proof.
  apply (counter_counts_inside_scope_only initial_world 0 [0; 1] [0; 1; 0] [0]).
  intros l H. simpl in H. destruct H.
Defined.

(** Claim C9. The count of a [DBStatementCounter] is never reset. For a
    counter attached to its connection: (1) whatever sequence of entering,
    exiting, statements on any connection, reads and constructions of other
    counters runs, the count does not decrease and the callback stays
    registered; (2) [__enter__] keeps the count; (3) [__exit__] keeps the
    count and the listeners, it only stops the counting; (4) entering the
    same instance twice accumulates: after two scopes [get_count] returns
    the old count plus the statements of both scopes on its connection. *)
Theorem count_is_cumulative :
  forall (w : World) (self : nat) (cnt : DBStatementCounter.t),
    refs_ok w ->
    attached w self cnt ->
    (forall ops : list Op,
        exists w' cnt',
          for_each ops (run_op self) w = (inr tt, w') /\
          attached w' self cnt' /\
          DBStatementCounter.count cnt <= DBStatementCounter.count cnt') /\
    (exists w',
        enter self w = (inr self, w') /\
        attached w' self
          (DBStatementCounter.mk (DBStatementCounter.conn cnt)
             (DBStatementCounter.count cnt) true)) /\
    (exists w',
        exit self w = (inr tt, w') /\
        listeners w' = listeners w /\
        attached w' self
          (DBStatementCounter.mk (DBStatementCounter.conn cnt)
             (DBStatementCounter.count cnt) false)) /\
    (forall first second : list nat,
        exists w',
          (enter self ;; execute_all first ;; exit self ;;
           enter self ;; execute_all second ;; exit self ;;
           get_count self) w
          = (inr (DBStatementCounter.count cnt
                  + count_occ Nat.eq_dec first (DBStatementCounter.conn cnt)
                  + count_occ Nat.eq_dec second (DBStatementCounter.conn cnt)),
             w')).
Proof.
  intros w self cnt Hok Ha. repeat apply conj.
  - intros ops.
    destruct (run_ops_attached ops _ _ _ Hok Ha) as (w' & cnt' & E & _ & Ha' & Hle).
    now exists w', cnt'.
  - destruct (enter_attached _ _ _ Hok Ha) as (w' & E & _ & _ & _ & _ & _ & _ & Ha').
    now exists w'.
  - destruct (exit_attached _ _ _ Hok Ha) as (w' & E & _ & Hl & _ & _ & _ & _ & Ha').
    now exists w'.
  - intros first second.
    destruct (enter_attached _ _ _ Hok Ha)
      as (w1 & E1 & _ & _ & _ & _ & _ & Hok1 & Ha1).
    rewrite (bind_ok _ E1).
    destruct (execute_all_attached first _ _ _ Hok1 Ha1)
      as (w2 & E2 & _ & _ & _ & _ & Hok2 & Ha2).
    rewrite (bind_ok _ E2), callback_iter in *; simpl in Ha2.
    destruct (exit_attached _ _ _ Hok2 Ha2)
      as (w3 & E3 & _ & _ & _ & _ & _ & Hok3 & Ha3).
    rewrite (bind_ok _ E3).
    destruct (enter_attached _ _ _ Hok3 Ha3)
      as (w4 & E4 & _ & _ & _ & _ & _ & Hok4 & Ha4).
    rewrite (bind_ok _ E4).
    destruct (execute_all_attached second _ _ _ Hok4 Ha4)
      as (w5 & E5 & _ & _ & _ & _ & Hok5 & Ha5).
    rewrite (bind_ok _ E5), callback_iter in *; simpl in Ha5.
    destruct (exit_attached _ _ _ Hok5 Ha5)
      as (w6 & E6 & _ & _ & _ & _ & _ & Hok6 & Ha6).
    rewrite (bind_ok _ E6).
    rewrite (get_count_attached _ _ _ Ha6). simpl. now exists w6.
Qed.

Lemma count_is_cumulative_witness :
  (forall ops : list Op,
      exists w' cnt',
        for_each ops (run_op 0) used_counter_world = (inr tt, w') /\
        attached w' 0 cnt' /\ 3 <= DBStatementCounter.count cnt') /\
  (exists w',
      enter 0 used_counter_world = (inr 0, w') /\
      attached w' 0 (DBStatementCounter.mk 0 3 true)) /\
  (exists w',
      exit 0 used_counter_world = (inr tt, w') /\
      listeners w' = listeners used_counter_world /\
      attached w' 0 (DBStatementCounter.mk 0 3 false)) /\
  (forall first second : list nat,
      exists w',
        (enter 0 ;; execute_all first ;; exit 0 ;;
         enter 0 ;; execute_all second ;; exit 0 ;;
         get_count 0) used_counter_world
        = (inr (3 + count_occ Nat.eq_dec first 0
                + count_occ Nat.eq_dec second 0), w')).
Proof.
  apply (count_is_cumulative used_counter_world 0
           (DBStatementCounter.mk 0 3 false)).
  - intros l H. simpl in H. destruct H as [<-|[]]. simpl. lia.
  - split; [reflexivity|]. intros [|c]; reflexivity.
Defined.

(** ** The seeded store *)

Lemma fold_max_from (a : nat) (l : list nat) :
  fold_right Nat.max a l = Nat.max a (fold_right Nat.max 0 l).
Proof.
  induction l as [|x l IH]; simpl; lia.
Qed.

Lemma next_id_seq {A} (f : nat -> A) (key : A -> nat) (n : nat) :
  (forall i, key (f i) = S i) ->
  next_id (map key (map f (seq 0 n))) = S n.
Proof.
  intros H. unfold next_id. f_equal.
  induction n as [|n IH]; auto.
  rewrite seq_S, !map_app, fold_right_app. simpl.
  rewrite fold_max_from, IH, H. lia.
Qed.

Lemma seeded_S (n : nat) :
  seeded (S n)
  = insert_user_account (chain_user_account n)
      (insert_account (chain_account n)
         (insert_company (chain_company n)
            (insert_user (chain_user n)
               (insert_person (chain_person n) (seeded n))))).
Proof.
  unfold seeded. rewrite seq_S, !map_app. reflexivity.
Qed.

Lemma seeded_key_fresh (n : nat) :
  existsb (same_key (chain_user_account n)) (user_accounts (seeded n)) = false.
Proof.
  simpl. apply not_true_is_false. intros H.
  apply existsb_exists in H as [ua [Hin Hk]].
  apply in_map_iff in Hin as [i [<- Hi]]. apply in_seq in Hi.
  unfold same_key in Hk; simpl in Hk.
  apply andb_true_iff in Hk as [Hk _]. apply Nat.eqb_eq in Hk. lia.
Qed.

Ltac flush_tac H :=
  unfold flush_one, bind, get; rewrite H; simpl;
  eexists; split; [reflexivity|]; simpl;
  repeat split; simpl; auto using fire_length.

Lemma flush_person (session : Session) (w : World) (obj : nat) name :
  nth_error (instances w) obj = Some (IPerson None name) ->
  exists w',
    flush_one session obj w = (inr tt, w') /\
    db w' = insert_person
              (Person.mk (next_id (map Person.id (persons (db w)))) name)
              (db w) /\
    instances w'
    = store_at obj
        (IPerson (Some (next_id (map Person.id (persons (db w))))) name)
        (instances w) /\
    frame w w'.
Proof.
  intros H. flush_tac H.
Qed.

Lemma flush_user (session : Session) (w : World) (obj : nat) person key :
  nth_error (instances w) obj = Some (IUser None person) ->
  key_of person (instances w) = inr key ->
  exists w',
    flush_one session obj w = (inr tt, w') /\
    db w' = insert_user
              (User.mk (next_id (map User.id (users (db w)))) key) (db w) /\
    instances w'
    = store_at obj
        (IUser (Some (next_id (map User.id (users (db w))))) person)
        (instances w) /\
    frame w w'.
Proof.
  intros H K. unfold flush_one, bind, get; rewrite H; simpl.
  unfold lift. rewrite K.
  eexists; split; [reflexivity|]; simpl.
  repeat split; simpl; auto using fire_length.
Qed.

Lemma flush_company (session : Session) (w : World) (obj : nat) name :
  nth_error (instances w) obj = Some (ICompany None name) ->
  exists w',
    flush_one session obj w = (inr tt, w') /\
    db w' = insert_company
              (Company.mk (next_id (map Company.id (companies (db w)))) name)
              (db w) /\
    instances w'
    = store_at obj
        (ICompany (Some (next_id (map Company.id (companies (db w))))) name)
        (instances w) /\
    frame w w'.
Proof.
  intros H. flush_tac H.
Qed.

Lemma flush_account (session : Session) (w : World) (obj : nat)
  status company key :
  nth_error (instances w) obj = Some (IAccount None status company) ->
  key_of company (instances w) = inr key ->
  exists w',
    flush_one session obj w = (inr tt, w') /\
    db w' = insert_account
              (Account.mk (next_id (map Account.id (accounts (db w))))
                 status key)
              (db w) /\
    instances w'
    = store_at obj
        (IAccount (Some (next_id (map Account.id (accounts (db w)))))
           status company)
        (instances w) /\
    frame w w'.
Proof.
  intros H K. unfold flush_one, bind, get; rewrite H; simpl.
  unfold lift. rewrite K.
  eexists; split; [reflexivity|]; simpl.
  repeat split; simpl; auto using fire_length.
Qed.

Lemma flush_user_account (session : Session) (w : World) (obj : nat)
  user account u a :
  nth_error (instances w) obj = Some (IUserAccount false user account) ->
  key_of user (instances w) = inr (Some u) ->
  key_of account (instances w) = inr (Some a) ->
  existsb (same_key (UserAccount.mk a u)) (user_accounts (db w)) = false ->
  exists w',
    flush_one session obj w = (inr tt, w') /\
    db w' = insert_user_account (UserAccount.mk a u) (db w) /\
    instances w'
    = store_at obj (IUserAccount true user account) (instances w) /\
    frame w w'.
Proof.
  intros H K1 K2 F. unfold flush_one, bind, get; rewrite H; simpl.
  unfold lift. rewrite K1, K2, F.
  eexists; split; [reflexivity|]; simpl.
  repeat split; simpl; auto using fire_length.
Qed.

(** [obj = cls(..); session.add(obj); session.flush()] with nothing else
    pending, when the flush of [obj] succeeds. *)
Lemma persist_block {A} (session : Session) (inst : Instance)
  (k : nat -> M A) (w w1 : World) :
  pending w = [] ->
  flush_one session (List.length (instances w))
    (log (EvAdd (List.length (instances w)))
       (set_pending [List.length (instances w)]
          (set_instances (instances w ++ [inst]) w)))
  = (inr tt, w1) ->
  (obj <- new_instance inst ;;
   session_add session obj ;;
   session_flush session ;;
   k obj) w
  = k (List.length (instances w)) (log EvFlush (set_pending [] w1)).
Proof.
  intros Hp E.
  cbv [new_instance session_add session_flush flush_pending bind get modify
       ret].
  cbn [pending instances set_pending set_instances log]. rewrite Hp.
  cbn [app for_each]. unfold bind at 1. rewrite E. reflexivity.
Qed.

(** The same block, with what it leaves behind. *)
Lemma persist_facts {A} (session : Session) (inst inst' : Instance)
  (d' : Store) (k : nat -> M A) (w : World) :
  pending w = [] ->
  (let h := List.length (instances w) in
   let w0 := log (EvAdd h)
               (set_pending [h] (set_instances (instances w ++ [inst]) w)) in
   exists w1,
     flush_one session h w0 = (inr tt, w1) /\
     db w1 = d' /\
     instances w1 = store_at h inst' (instances w0) /\
     frame w0 w1) ->
  exists w',
    (obj <- new_instance inst ;;
     session_add session obj ;;
     session_flush session ;;
     k obj) w
    = k (List.length (instances w)) w' /\
    db w' = d' /\ instances w' = instances w ++ [inst'] /\
    pending w' = [] /\
    listeners w' = listeners w /\ next_conn w' = next_conn w /\
    List.length (counters w') = List.length (counters w) /\
    stdout w' = stdout w.
Proof.
  intros Hp (w1 & E & D & I & Fl & Fn & Fc & Fo & Fp).
  eexists. split; [apply (persist_block session inst k w w1 Hp E)|].
  simpl in *. rewrite store_at_snoc in I. repeat split; auto.
Qed.

Lemma block_person {A} (session : Session) name (k : nat -> M A) (w : World) :
  pending w = [] ->
  exists w',
    (obj <- new_instance (IPerson None name) ;;
     session_add session obj ;;
     session_flush session ;;
     k obj) w
    = k (List.length (instances w)) w' /\
    db w' = insert_person
              (Person.mk (next_id (map Person.id (persons (db w)))) name)
              (db w) /\
    instances w'
    = instances w
      ++ [IPerson (Some (next_id (map Person.id (persons (db w))))) name] /\
    pending w' = [] /\
    listeners w' = listeners w /\ next_conn w' = next_conn w /\
    List.length (counters w') = List.length (counters w) /\
    stdout w' = stdout w.
Proof.
  intros Hp. apply persist_facts; auto. cbv zeta.
  edestruct flush_person as (w1 & E & H);
    [|exists w1; split; [exact E|exact H]].
  simpl. apply nth_error_snoc.
Qed.

Lemma block_user {A} (session : Session) person key (k : nat -> M A)
  (w : World) :
  pending w = [] ->
  key_of person (instances w ++ [IUser None person]) = inr key ->
  exists w',
    (obj <- new_instance (IUser None person) ;;
     session_add session obj ;;
     session_flush session ;;
     k obj) w
    = k (List.length (instances w)) w' /\
    db w' = insert_user
              (User.mk (next_id (map User.id (users (db w)))) key) (db w) /\
    instances w'
    = instances w
      ++ [IUser (Some (next_id (map User.id (users (db w))))) person] /\
    pending w' = [] /\
    listeners w' = listeners w /\ next_conn w' = next_conn w /\
    List.length (counters w') = List.length (counters w) /\
    stdout w' = stdout w.
Proof.
  intros Hp K. apply persist_facts; auto. cbv zeta.
  edestruct flush_user as (w1 & E & H);
    [| |exists w1; split; [exact E|exact H]].
  - simpl. apply nth_error_snoc.
  - exact K.
Qed.

Lemma block_company {A} (session : Session) name (k : nat -> M A)
  (w : World) :
  pending w = [] ->
  exists w',
    (obj <- new_instance (ICompany None name) ;;
     session_add session obj ;;
     session_flush session ;;
     k obj) w
    = k (List.length (instances w)) w' /\
    db w' = insert_company
              (Company.mk (next_id (map Company.id (companies (db w)))) name)
              (db w) /\
    instances w'
    = instances w
      ++ [ICompany (Some (next_id (map Company.id (companies (db w))))) name] /\
    pending w' = [] /\
    listeners w' = listeners w /\ next_conn w' = next_conn w /\
    List.length (counters w') = List.length (counters w) /\
    stdout w' = stdout w.
Proof.
  intros Hp. apply persist_facts; auto. cbv zeta.
  edestruct flush_company as (w1 & E & H);
    [|exists w1; split; [exact E|exact H]].
  simpl. apply nth_error_snoc.
Qed.

Lemma block_account {A} (session : Session) status company key
  (k : nat -> M A) (w : World) :
  pending w = [] ->
  key_of company (instances w ++ [IAccount None status company]) = inr key ->
  exists w',
    (obj <- new_instance (IAccount None status company) ;;
     session_add session obj ;;
     session_flush session ;;
     k obj) w
    = k (List.length (instances w)) w' /\
    db w' = insert_account
              (Account.mk (next_id (map Account.id (accounts (db w))))
                 status key)
              (db w) /\
    instances w'
    = instances w
      ++ [IAccount (Some (next_id (map Account.id (accounts (db w)))))
            status company] /\
    pending w' = [] /\
    listeners w' = listeners w /\ next_conn w' = next_conn w /\
    List.length (counters w') = List.length (counters w) /\
    stdout w' = stdout w.
Proof.
  intros Hp K. apply persist_facts; auto. cbv zeta.
  edestruct flush_account as (w1 & E & H);
    [| |exists w1; split; [exact E|exact H]].
  - simpl. apply nth_error_snoc.
  - exact K.
Qed.

Lemma block_user_account {A} (session : Session) user account u a
  (k : nat -> M A) (w : World) :
  pending w = [] ->
  key_of user (instances w ++ [IUserAccount false user account])
  = inr (Some u) ->
  key_of account (instances w ++ [IUserAccount false user account])
  = inr (Some a) ->
  existsb (same_key (UserAccount.mk a u)) (user_accounts (db w)) = false ->
  exists w',
    (obj <- new_instance (IUserAccount false user account) ;;
     session_add session obj ;;
     session_flush session ;;
     k obj) w
    = k (List.length (instances w)) w' /\
    db w' = insert_user_account (UserAccount.mk a u) (db w) /\
    instances w' = instances w ++ [IUserAccount true user account] /\
    pending w' = [] /\
    listeners w' = listeners w /\ next_conn w' = next_conn w /\
    List.length (counters w') = List.length (counters w) /\
    stdout w' = stdout w.
Proof.
  intros Hp K1 K2 F. apply persist_facts; auto. cbv zeta.
  edestruct flush_user_account as (w1 & E & H);
    [| | | |exists w1; split; [exact E|exact H]].
  - simpl. apply nth_error_snoc.
  - exact K1.
  - exact K2.
  - exact F.
Qed.

Lemma commit_clean (session : Session) (w : World) :
  pending w = [] -> session_commit session w = (inr tt, log EvCommit (set_pending [] w)).
Proof.
  intros Hp. cbv [session_commit flush_pending bind get modify ret].
  rewrite Hp. reflexivity.
Qed.

Ltac persist lem :=
  cbv beta;
  lazymatch goal with
  | |- context [bind (new_instance ?inst)
                  (fun obj => bind (session_add ?s obj)
                     (fun _ => bind (session_flush _) (fun _ => @?K obj)))
                  ?w] =>
      let w1 := fresh "w" in
      let E := fresh "E" in
      let D := fresh "Hdb" in
      let I := fresh "Hin" in
      let P := fresh "Hpe" in
      let L := fresh "Hli" in
      let N := fresh "Hnc" in
      let C := fresh "Hco" in
      let O := fresh "Hso" in
      destruct (lem K w) as (w1 & E & D & I & P & L & N & C & O);
      [ .. | rewrite E; clear E ]
  end.

(** One iteration of the loop of [populate_db] on a store that holds the
    chains before [i]: it returns, and the store then holds chain [i] too. *)
Lemma populate_chain_seeded (session : Session) (i : nat) (w : World) :
  db w = seeded i -> pending w = [] ->
  exists w',
    populate_chain session i w = (inr tt, w') /\
    db w' = seeded (S i) /\ pending w' = [] /\
    listeners w' = listeners w /\ next_conn w' = next_conn w /\
    List.length (counters w') = List.length (counters w) /\
    stdout w' = stdout w.
Proof.
  intros Hd Hp.
  assert (N1 : next_id (map Person.id (persons (db w))) = S i)
    by (rewrite Hd; now apply next_id_seq).
  assert (N2 : next_id (map User.id (users (db w))) = S i)
    by (rewrite Hd; now apply next_id_seq).
  assert (N3 : next_id (map Company.id (companies (db w))) = S i)
    by (rewrite Hd; now apply next_id_seq).
  assert (N4 : next_id (map Account.id (accounts (db w))) = S i)
    by (rewrite Hd; now apply next_id_seq).
  assert (F : existsb (same_key (UserAccount.mk (S i) (S i)))
                (user_accounts (db w)) = false)
    by (rewrite Hd; apply seeded_key_fresh).
  rewrite seeded_S, <- Hd. clear Hd.
  unfold populate_chain.
  persist (block_person (A:=unit) session (Some ("test" ++ str i)%string));
    [assumption|].
  persist (block_user (A:=unit) session (Some (List.length (instances w)))
             (Some (S i))); [assumption| |].
  { rewrite Hin, N1. unfold key_of.
    rewrite <- app_assoc. simpl. now rewrite nth_error_mid. }
  persist (block_company (A:=unit) session (Some ("company" ++ str i)%string));
    [assumption|].
  persist (block_account (A:=unit) session (Some "x{i}")
             (Some (List.length (instances w1))) (Some (S i)));
    [assumption| |].
  { rewrite Hin1, Hdb0, Hdb. simpl. rewrite N3. unfold key_of.
    rewrite <- app_assoc. simpl. now rewrite nth_error_mid. }
  persist (block_user_account (A:=unit) session
             (Some (List.length (instances w0)))
             (Some (List.length (instances w2))) (S i) (S i));
    [assumption| | | |].
  { rewrite Hin2, Hin1, Hin0, Hdb. simpl. rewrite N2. unfold key_of.
    rewrite <- !app_assoc. simpl. now rewrite nth_error_mid. }
  { rewrite Hin2, Hdb1, Hdb0, Hdb. simpl. rewrite N4. unfold key_of.
    rewrite <- !app_assoc. simpl. now rewrite nth_error_mid. }
  { rewrite Hdb2, Hdb1, Hdb0, Hdb. simpl. exact F. }
  cbv beta. rewrite (commit_clean session w4 Hpe3).
  eexists. split; [reflexivity|]. simpl.
  rewrite Hdb3, Hdb2, Hdb1, Hdb0, Hdb. simpl. rewrite N1, N2, N3, N4.
  repeat split; congruence.
Qed.

Lemma populate_loop (session : Session) (k : nat) :
  forall (i : nat) (w : World),
    db w = seeded i -> pending w = [] ->
    exists w',
      for_each (seq i k) (populate_chain session) w = (inr tt, w') /\
      db w' = seeded (i + k) /\ pending w' = [] /\
      listeners w' = listeners w /\ next_conn w' = next_conn w /\
      List.length (counters w') = List.length (counters w) /\
      stdout w' = stdout w.
Proof.
  induction k as [|k IH]; intros i w Hd Hp.
  - exists w. rewrite Nat.add_0_r. simpl. repeat split; auto.
  - destruct (populate_chain_seeded session i w Hd Hp)
      as (w1 & E1 & D1 & P1 & L1 & N1 & C1 & O1).
    destruct (IH (S i) w1 D1 P1) as (w2 & E2 & D2 & P2 & L2 & N2 & C2 & O2).
    exists w2. simpl. rewrite (bind_ok _ E1).
    replace (i + S k) with (S i + k) by lia.
    repeat split; congruence.
Qed.

(** [populate_db(n)] on an empty database returns and leaves exactly the
    chains 0 .. n-1 in it. *)
Lemma populate_db_seeded (n : nat) (w : World) :
  db w = empty_store -> pending w = [] ->
  exists w',
    populate_db n w = (inr tt, w') /\
    db w' = seeded n /\ pending w' = [] /\
    listeners w' = listeners w /\ next_conn w' = S (next_conn w) /\
    List.length (counters w') = List.length (counters w) /\
    stdout w' = stdout w.
Proof.
  intros Hd Hp.
  destruct (populate_loop (mkSession (next_conn w)) n 0
              (set_next_conn (S (next_conn w)) w) Hd Hp)
    as (w1 & E1 & H).
  exists w1. split; [|exact H].
  cbv [populate_db with_session new_session finally bind get modify ret].
  rewrite E1. reflexivity.
Qed.

(** ** LIKE with a trailing [%] is a prefix test *)

Lemma like_percent_end (s : string) : like "%" s = true.
Proof.
  induction s as [|c s IH]; simpl; auto.
Qed.

Lemma like_plain_prefix (p : string) :
  plain p = true -> forall s, like (p ++ "%") s = prefix p s.
Proof.
  induction p as [|c p IH]; intros Hp s.
  - rewrite like_percent_end. now destruct s.
  - simpl in Hp. apply andb_true_iff in Hp as [Hc Hp].
    apply andb_true_iff in Hc as [H1 H2].
    apply negb_true_iff in H1, H2.
    change (String c p ++ "%")%string with (String c (p ++ "%")).
    cbn [like]. rewrite H1, H2.
    destruct s as [|d s]; simpl; auto.
    rewrite IH by assumption.
    destruct (ascii_dec c d) as [->|Hne].
    + now rewrite Ascii.eqb_refl.
    + apply Ascii.eqb_neq in Hne. now rewrite Hne.
Qed.

Lemma prefix_app (p s : string) : prefix p (p ++ s) = true.
Proof.
  induction p as [|c p IH]; simpl.
  - now destruct s.
  - destruct (ascii_dec c c); [auto|congruence].
Qed.

Lemma lower_app (a b : string) :
  lower (a ++ b) = (lower a ++ lower b)%string.
Proof.
  induction a as [|c a IH]; simpl; congruence.
Qed.

Lemma iprefix_app (p s : string) : iprefix p (p ++ s) = true.
Proof.
  unfold iprefix. rewrite lower_app. apply prefix_app.
Qed.

(** [column.ilike(p + "%")] is the case-insensitive prefix test for [p], and
    fails on NULL. *)
Lemma ilike_prefix (p : string) (col : option string) :
  plain (lower p) = true ->
  ilike col (p ++ "%") = true <->
  exists s, col = Some s /\ iprefix p s = true.
Proof.
  intros Hp. destruct col as [s|]; unfold ilike, iprefix.
  - rewrite lower_app. change (lower "%") with "%".
    rewrite like_plain_prefix by assumption. split.
    + intros H. now exists s.
    + now intros (s' & [= <-] & H).
  - split; [discriminate|]. now intros (s & [=] & _).
Qed.

(** ** The rows [get_query] selects *)

Lemma fold_join_step (db : Store) (k : string) (rows : list (list Entity)) :
  (forall row, In row rows -> extend db k row <> None) ->
  fold_right (join_step db k) (Some []) rows
  = Some (flat_map (extension db k) rows).
Proof.
  induction rows as [|row rows IH]; intros H; simpl; auto.
  rewrite IH by (intros; apply H; now right).
  unfold join_step, extension.
  destruct (extend db k row) eqn:E; auto.
  exfalso. apply (H row); auto. now left.
Qed.

Lemma fk_eqb_eq (fk : option nat) (pk : nat) :
  fk_eqb fk pk = true <-> fk = Some pk.
Proof.
  destruct fk as [k|]; simpl.
  - rewrite Nat.eqb_eq. split; congruence.
  - split; discriminate.
Qed.

Lemma in_joined1 (db : Store) (row : list Entity) :
  In row (joined1 db) <->
  exists p u,
    row = [EPerson p; EUser u] /\ In p (persons db) /\ In u (users db) /\
    User.person_id u = Some (Person.id p).
Proof.
  unfold joined1. rewrite in_flat_map. split.
  - intros (r0 & H0 & H). simpl in H0. rewrite map_map in H0.
    apply in_map_iff in H0 as (p & <- & Hp).
    unfold extension, extend in H; simpl in H. rewrite map_map in H.
    apply in_map_iff in H as (u & <- & Hu).
    apply filter_In in Hu as [Hu Hfk]. apply fk_eqb_eq in Hfk.
    now exists p, u.
  - intros (p & u & -> & Hp & Hu & Hfk). exists [EPerson p]. split.
    + simpl. rewrite map_map. apply in_map_iff. now exists p.
    + unfold extension, extend; simpl. rewrite map_map.
      apply in_map_iff. exists u. split; auto.
      apply filter_In. split; auto. now apply fk_eqb_eq.
Qed.

Lemma in_joined2 (db : Store) (row : list Entity) :
  In row (joined2 db) <->
  exists p u ua,
    row = [EPerson p; EUser u; EUserAccount ua] /\
    In p (persons db) /\ In u (users db) /\ In ua (user_accounts db) /\
    User.person_id u = Some (Person.id p) /\
    UserAccount.user_id ua = User.id u.
Proof.
  unfold joined2. rewrite in_flat_map. split.
  - intros (r0 & H0 & H).
    apply in_joined1 in H0 as (p & u & -> & Hp & Hu & Hfk).
    unfold extension, extend in H; simpl in H. rewrite map_map in H.
    apply in_map_iff in H as (ua & <- & Hua).
    apply filter_In in Hua as [Hua Hk]. apply Nat.eqb_eq in Hk.
    now exists p, u, ua.
  - intros (p & u & ua & -> & Hp & Hu & Hua & Hfk & Hk).
    exists [EPerson p; EUser u]. split.
    + apply in_joined1. now exists p, u.
    + unfold extension, extend; simpl. rewrite map_map.
      apply in_map_iff. exists ua. split; auto.
      apply filter_In. split; auto. now apply Nat.eqb_eq.
Qed.

Lemma in_joined3 (db : Store) (row : list Entity) :
  In row (joined3 db) <->
  exists p u ua a,
    row = [EPerson p; EUser u; EUserAccount ua; EAccount a] /\
    In p (persons db) /\ In u (users db) /\ In ua (user_accounts db) /\
    In a (accounts db) /\
    User.person_id u = Some (Person.id p) /\
    UserAccount.user_id ua = User.id u /\
    Account.id a = UserAccount.account_id ua.
Proof.
  unfold joined3. rewrite in_flat_map. split.
  - intros (r0 & H0 & H).
    apply in_joined2 in H0 as (p & u & ua & -> & Hp & Hu & Hua & Hfk & Hk).
    unfold extension, extend in H; simpl in H. rewrite map_map in H.
    apply in_map_iff in H as (a & <- & Ha).
    apply filter_In in Ha as [Ha Hk']. apply Nat.eqb_eq in Hk'.
    exists p, u, ua, a. repeat split; auto.
  - intros (p & u & ua & a & -> & Hp & Hu & Hua & Ha & Hfk & Hk & Hk').
    exists [EPerson p; EUser u; EUserAccount ua]. split.
    + apply in_joined2. exists p, u, ua. repeat split; auto.
    + unfold extension, extend; simpl. rewrite map_map.
      apply in_map_iff. exists a. split; auto.
      apply filter_In. split; auto. now apply Nat.eqb_eq.
Qed.

Lemma in_joined4 (db : Store) (row : list Entity) :
  In row (joined4 db) <->
  exists p u ua a c, row = chain_row p u ua a c /\ is_chain db p u ua a c.
Proof.
  unfold joined4. rewrite in_flat_map. split.
  - intros (r0 & H0 & H).
    apply in_joined3 in H0
      as (p & u & ua & a & -> & Hp & Hu & Hua & Ha & Hfk & Hk & Hk').
    unfold extension, extend in H; simpl in H. rewrite map_map in H.
    apply in_map_iff in H as (c & <- & Hc).
    apply filter_In in Hc as [Hc Hfk']. apply fk_eqb_eq in Hfk'.
    exists p, u, ua, a, c. unfold is_chain. repeat split; auto.
  - intros (p & u & ua & a & c & -> & Hp & Hu & Hua & Ha & Hc & Hfk & Hk
            & Hk' & Hfk').
    exists [EPerson p; EUser u; EUserAccount ua; EAccount a]. split.
    + apply in_joined3. exists p, u, ua, a. repeat split; auto.
    + unfold extension, extend; simpl. rewrite map_map.
      apply in_map_iff. exists c. split; auto.
      apply filter_In. split; auto. now apply fk_eqb_eq.
Qed.

(** The join of [get_query] is defined on every store. *)
Lemma join_rows_keys (db : Store) :
  join_rows db join_keys (map (fun e => [e]) (table db CPerson))
  = Some (joined4 db).
Proof.
  unfold join_keys. cbn [join_rows].
  rewrite fold_join_step.
  2:{ intros row H. simpl in H. rewrite map_map in H.
      apply in_map_iff in H as (p & <- & _). discriminate. }
  fold (joined1 db). rewrite fold_join_step.
  2:{ intros row H. apply in_joined1 in H as (p & u & -> & _). discriminate. }
  fold (joined2 db). rewrite fold_join_step.
  2:{ intros row H. apply in_joined2 in H as (p & u & ua & -> & _).
      discriminate. }
  fold (joined3 db). rewrite fold_join_step.
  2:{ intros row H. apply in_joined3 in H as (p & u & ua & a & -> & _).
      discriminate. }
  reflexivity.
Qed.

Lemma get_query_shape (session : Session) (options : OptionsArg) (q : Query) :
  get_query session options = inr q ->
  q_session q = session /\ q_entity q = CPerson /\ q_join q = join_keys /\
  q_filter q = where_clause /\
  q_options q = (if truthy_arg options
                 then match unpack options with inr l => l | inl _ => [] end
                 else []).
Proof.
  unfold get_query.
  destruct options as [|l|l|[]|n]; simpl;
    try (destruct l; simpl); try (destruct (Z.eqb n 0); simpl);
    try discriminate; intros [= <-]; repeat split; reflexivity.
Qed.

Lemma Query_rows_get_query (session : Session) (options : OptionsArg)
  (q : Query) (db : Store) :
  get_query session options = inr q ->
  Query_rows q db
  = Some (filter (fun row => forallb (holds row) where_clause) (joined4 db)).
Proof.
  intros H. apply get_query_shape in H as (_ & He & Hj & Hf & _).
  unfold Query_rows. now rewrite He, Hj, Hf, join_rows_keys.
Qed.

Lemma where_clause_chain (p : Person.t) (u : User.t) (ua : UserAccount.t)
  (a : Account.t) (c : Company.t) :
  forallb (holds (chain_row p u ua a c)) where_clause = true <->
  (exists s, Person.name p = Some s /\ iprefix "test" s = true) /\
  (exists s, Account.status a = Some s /\ iprefix "x" s = true) /\
  (exists s, Company.name c = Some s /\ iprefix "company" s = true).
Proof.
  cbn [forallb where_clause holds chain_row column_value find is_person
         is_account is_company].
  rewrite !andb_true_iff.
  rewrite (ilike_prefix "test" (Person.name p) eq_refl).
  rewrite (ilike_prefix "x" (Account.status a) eq_refl).
  rewrite (ilike_prefix "company" (Company.name c) eq_refl).
  tauto.
Qed.

(** Claim C4. Given a session and an optional list of loader options,
    [get_query] returns a query on that session that selects [Person],
    joined through [user], [my_accounts], [account] and [company], and
    carries the given options (none when the list is absent); on every store
    it selects exactly the rows that are a full Person-User-UserAccount-
    Account-Company chain whose [Person.name], [Account.status] and
    [Company.name] are non-NULL and start, ignoring case, with "test", "x"
    and "company": any row failing one of the three prefixes is left out. *)
Theorem get_query_selects_matching_chains :
  forall (session : Session) (directives : option (list LoaderOption))
         (db : Store),
    exists q,
      get_query session
        match directives with Some l => ArgList l | None => ArgNone end
      = inr q /\
      q_session q = session /\
      q_entity q = CPerson /\
      q_join q = ["user"; "my_accounts"; "account"; "company"] /\
      q_options q = match directives with Some l => l | None => [] end /\
      exists rows,
        Query_rows q db = Some rows /\
        forall row,
          In row rows <->
          exists p u ua a c,
            row = [EPerson p; EUser u; EUserAccount ua; EAccount a;
                   ECompany c]
            /\ is_chain db p u ua a c
            /\ (exists s, Person.name p = Some s /\ iprefix "test" s = true)
            /\ (exists s, Account.status a = Some s /\ iprefix "x" s = true)
            /\ (exists s, Company.name c = Some s
                          /\ iprefix "company" s = true).
Proof.
  intros session directives db.
  destruct (get_query session
              match directives with Some l => ArgList l | None => ArgNone end)
    as [e|q] eqn:H.
  { destruct directives as [[|o l]|]; discriminate H. }
  exists q. split; [reflexivity|].
  rewrite (Query_rows_get_query _ _ q db H).
  destruct (get_query_shape _ _ q H) as (Hs & He & Hj & _ & Ho).
  repeat (split; [assumption|]). split.
  - rewrite Ho. now destruct directives as [[|o l]|].
  - eexists. split; [reflexivity|]. intros row.
    rewrite filter_In, in_joined4. split.
    + intros [(p & u & ua & a & c & -> & Hc) Hw].
      apply where_clause_chain in Hw. now exists p, u, ua, a, c.
    + intros (p & u & ua & a & c & -> & Hc & Hw). split.
      * now exists p, u, ua, a, c.
      * now apply where_clause_chain.
Qed.

(** Claim C10. [get_query] with [options=None], with [options=[]] and with
    any other falsy [options] returns one and the same query, whose list of
    loader options is empty. *)
Theorem get_query_falsy_options :
  forall (session : Session) (options : OptionsArg),
    truthy_arg options = false ->
    get_query session options = get_query session ArgNone /\
    get_query session ArgNone = get_query session (ArgList []) /\
    exists q, get_query session options = inr q /\ q_options q = [].
Proof.
  intros session options H. unfold get_query. rewrite H. simpl.
  repeat split. eexists. split; reflexivity.
Qed.

Lemma get_query_falsy_options_witness :
  get_query (mkSession 0) (ArgTuple []) = get_query (mkSession 0) ArgNone /\
  get_query (mkSession 0) ArgNone = get_query (mkSession 0) (ArgList []) /\
  exists q, get_query (mkSession 0) (ArgTuple []) = inr q /\ q_options q = [].
Proof.
  apply (get_query_falsy_options (mkSession 0) (ArgTuple [])).
  reflexivity.
Defined.

(** Claim C5. [populate_db(10)] on the empty database returns no value and
    leaves exactly 10 rows in each of the five tables; for every i below 10
    the i-th rows of the five tables form one chain (the user refers to the
    person, the account to the company, the user-account row to the user and
    the account), the person is named [test{i}] and the company
    [company{i}]; and the session did, for each chain in turn, add-flush
    five times (one INSERT per flush) and then one commit. *)
Theorem populate_db_ten_chains :
  exists w',
    populate_db 10 initial_world = (inr tt, w') /\
    List.length (persons (db w')) = 10 /\
    List.length (users (db w')) = 10 /\
    List.length (companies (db w')) = 10 /\
    List.length (accounts (db w')) = 10 /\
    List.length (user_accounts (db w')) = 10 /\
    (forall i, i < 10 ->
       exists p u c a ua,
         nth_error (persons (db w')) i = Some p /\
         nth_error (users (db w')) i = Some u /\
         nth_error (companies (db w')) i = Some c /\
         nth_error (accounts (db w')) i = Some a /\
         nth_error (user_accounts (db w')) i = Some ua /\
         Person.name p = Some ("test" ++ str i)%string /\
         Company.name c = Some ("company" ++ str i)%string /\
         User.person_id u = Some (Person.id p) /\
         Account.company_id a = Some (Company.id c) /\
         UserAccount.user_id ua = User.id u /\
         UserAccount.account_id ua = Account.id a) /\
    trace w' = flat_map (chain_trace 0) (seq 0 10).
Proof.
  eexists. split; [vm_compute; reflexivity|].
  repeat split; try reflexivity.
  intros i Hi.
  do 10 (destruct i as [|i];
         [do 5 eexists; repeat split; reflexivity|]).
  lia.
Qed.

(** ** The seeded store under the query *)

Lemma filter_none {A} (test : A -> bool) (l : list A) :
  (forall x, In x l -> test x = false) -> filter test l = [].
Proof.
  induction l as [|x l IH]; intros H; simpl; auto.
  rewrite (H x) by now left. apply IH. intros; apply H; now right.
Qed.

Lemma filter_all {A} (test : A -> bool) (l : list A) :
  (forall x, In x l -> test x = true) -> filter test l = l.
Proof.
  induction l as [|x l IH]; intros H; simpl; auto.
  rewrite (H x) by now left. f_equal. apply IH. intros; apply H; now right.
Qed.

(** In a table whose i-th row has key i+1, a key selects one row. *)
Lemma filter_seq_unique {A} (f : nat -> A) (test : A -> bool) (i n : nat) :
  i < n ->
  (forall j, test (f j) = Nat.eqb j i) ->
  filter test (map f (seq 0 n)) = [f i].
Proof.
  intros Hi Ht. induction n as [|n IH]; [lia|].
  rewrite seq_S, map_app, filter_app. simpl. rewrite Ht.
  destruct (Nat.eqb_spec n i) as [->|Hne].
  - rewrite filter_none; auto.
    intros x Hx. apply in_map_iff in Hx as (j & <- & Hj).
    apply in_seq in Hj. rewrite Ht. apply Nat.eqb_neq. lia.
  - rewrite IH by lia. reflexivity.
Qed.

Lemma related_user_seeded (n i : nat) :
  i < n ->
  related (seeded n) (EPerson (chain_person i)) "user"
  = Some [EUser (chain_user i)].
Proof.
  intros Hi. simpl.
  rewrite (filter_seq_unique chain_user _ i n Hi); auto.
Qed.

Lemma related_my_accounts_seeded (n i : nat) :
  i < n ->
  related (seeded n) (EUser (chain_user i)) "my_accounts"
  = Some [EUserAccount (chain_user_account i)].
Proof.
  intros Hi. simpl.
  rewrite (filter_seq_unique chain_user_account _ i n Hi); auto.
Qed.

Lemma related_account_seeded (n i : nat) :
  i < n ->
  related (seeded n) (EUserAccount (chain_user_account i)) "account"
  = Some [EAccount (chain_account i)].
Proof.
  intros Hi. simpl.
  rewrite (filter_seq_unique chain_account _ i n Hi); auto.
Qed.

Lemma related_company_seeded (n i : nat) :
  i < n ->
  related (seeded n) (EAccount (chain_account i)) "company"
  = Some [ECompany (chain_company i)].
Proof.
  intros Hi. simpl.
  rewrite (filter_seq_unique chain_company _ i n Hi); auto.
  intros j. simpl. apply Nat.eqb_sym.
Qed.

Lemma flat_map_singletons {A B C} (g : A -> B) (g' : A -> C)
  (F : B -> list C) (l : list A) :
  (forall i, In i l -> F (g i) = [g' i]) ->
  flat_map F (map g l) = map g' l.
Proof.
  induction l as [|x l IH]; intros H; simpl; auto.
  rewrite (H x) by now left. simpl. f_equal.
  apply IH. intros; apply H; now right.
Qed.

Lemma joined4_seeded (n : nat) :
  joined4 (seeded n) = map seeded_row (seq 0 n).
Proof.
  unfold joined4, joined3, joined2, joined1.
  cbn [table seeded persons]. rewrite !map_map.
  rewrite (flat_map_singletons (fun i => [EPerson (chain_person i)])
             (fun i => [EPerson (chain_person i); EUser (chain_user i)])).
  2:{ intros i Hi. apply in_seq in Hi. unfold extension, extend.
      cbn [rev app hd_error]. rewrite related_user_seeded by lia.
      reflexivity. }
  rewrite (flat_map_singletons _
             (fun i => [EPerson (chain_person i); EUser (chain_user i);
                        EUserAccount (chain_user_account i)])).
  2:{ intros i Hi. apply in_seq in Hi. unfold extension, extend.
      cbn [rev app hd_error]. rewrite related_my_accounts_seeded by lia.
      reflexivity. }
  rewrite (flat_map_singletons _
             (fun i => [EPerson (chain_person i); EUser (chain_user i);
                        EUserAccount (chain_user_account i);
                        EAccount (chain_account i)])).
  2:{ intros i Hi. apply in_seq in Hi. unfold extension, extend.
      cbn [rev app hd_error]. rewrite related_account_seeded by lia.
      reflexivity. }
  apply flat_map_singletons.
  intros i Hi. apply in_seq in Hi. unfold extension, extend.
  cbn [rev app hd_error]. rewrite related_company_seeded by lia.
  reflexivity.
Qed.

(** Every seeded chain passes the filter of [get_query]. *)
Lemma Query_rows_seeded (session : Session) (options : OptionsArg)
  (q : Query) (n : nat) :
  get_query session options = inr q ->
  Query_rows q (seeded n) = Some (map seeded_row (seq 0 n)).
Proof.
  intros H. rewrite (Query_rows_get_query session options q _ H).
  rewrite joined4_seeded. f_equal. apply filter_all.
  intros row Hr. apply in_map_iff in Hr as (i & <- & _).
  apply where_clause_chain. repeat split.
  - eexists. split; [reflexivity|]. apply iprefix_app.
  - eexists. split; reflexivity.
  - eexists. split; [reflexivity|]. apply iprefix_app.
Qed.

(** ** Running a scenario *)

Lemma execute_step (w : World) (c self : nat) cnt :
  refs_ok w -> attached w self cnt ->
  exists w',
    execute c w = (inr tt, w') /\
    db w' = db w /\ listeners w' = listeners w /\
    stdout w' = stdout w /\ next_conn w' = next_conn w /\
    trace w' = trace w ++ [EvExecute c] /\
    refs_ok w' /\
    attached w' self
      (if Nat.eqb c (DBStatementCounter.conn cnt)
       then DBStatementCounter.callback cnt else cnt).
Proof.
  intros Hok Ha.
  destruct (execute_attached w c self cnt Ha) as (w' & E & Hd & Hl & Ho & Hn & Ha').
  exists w'. repeat split; auto; try apply Ha'.
  - injection E as <-. reflexivity.
  - replace w' with (snd (execute c w)) by now rewrite E.
    now apply execute_refs_ok.
Qed.

Lemma finally_ok {A} (body : M A) (cleanup : M unit) (w w' w'' : World)
  (r : Exc + A) :
  body w = (r, w') -> cleanup w' = (inr tt, w'') ->
  finally body cleanup w = (r, w'').
Proof.
  intros E1 E2. unfold finally. now rewrite E1, E2.
Qed.

Lemma executed_app (t1 t2 : list Event) :
  executed (t1 ++ t2) = executed t1 ++ executed t2.
Proof.
  unfold executed. apply flat_map_app.
Qed.

Lemma in_scope_execute (w0 : World) (c self k : nat) (w : World) :
  in_scope w0 c self k w ->
  exists w', execute c w = (inr tt, w') /\ in_scope w0 c self (S k) w'.
Proof.
  intros (Ha & Hok & Hd & Hl & Ho & Hn & Ht).
  destruct (execute_step w c self _ Hok Ha)
    as (w' & E & Hd' & Hl' & Ho' & Hn' & Ht' & Hok' & Ha').
  exists w'. split; auto.
  cbn [DBStatementCounter.conn] in Ha'. rewrite Nat.eqb_refl in Ha'.
  unfold DBStatementCounter.callback in Ha'.
  cbn [DBStatementCounter.conn DBStatementCounter.count
       DBStatementCounter.do_count] in Ha'.
  replace (k + 1) with (S k) in Ha' by lia.
  unfold in_scope. repeat (split; [congruence || assumption|]).
  rewrite Ht', executed_app, Ht, <- app_assoc. f_equal.
  change (executed [EvExecute c]) with (repeat c 1).
  rewrite <- repeat_app. f_equal. lia.
Qed.

Ltac step := erewrite bind_ok by reflexivity.

(** A scenario, given what its fetch-and-dereference part does inside the
    counting scope: it returns, and prints the query and then the number of
    statements that part executed. *)
Lemma scenario_outcome (banner : string) (options : OptionsArg) (q : Query)
  (k : nat) (w : World) :
  refs_ok w ->
  get_query (mkSession (next_conn w)) options = inr q ->
  (forall ws,
      db ws = db w ->
      in_scope ws (next_conn w) (List.length (counters w)) 0 ws ->
      exists w2,
        first_and_dereference q ws = (inr tt, w2) /\
        in_scope ws (next_conn w) (List.length (counters w)) k w2) ->
  exists w',
    scenario banner options w = (inr tt, w') /\
    stdout w'
    = stdout w ++ [OutStr "--------"; OutStr banner; OutStr "Query";
                   OutQuery q; OutStr "Statements"; OutInt k] /\
    db w' = db w /\ refs_ok w' /\
    executed (trace w') = executed (trace w) ++ repeat (next_conn w) k.
Proof.
  intros Hok Hq Hf. unfold scenario.
  step. step. unfold with_session. step.
  set (w1 := set_next_conn _ _).
  assert (Hok1 : refs_ok w1) by exact Hok.
  assert (F1 : db w1 = db w /\ next_conn w1 = S (next_conn w) /\
               trace w1 = trace w /\ counters w1 = counters w /\
               stdout w1 = stdout w ++ [OutStr "--------"; OutStr banner]).
  { subst w1; simpl. rewrite <- app_assoc. auto. }
  destruct F1 as (Fd1 & Fn1 & Ft1 & Fc1 & Fo1).
  destruct (new_counter_attached w1 (next_conn w) Hok1)
    as (w2 & E2 & Hd2 & Ho2 & Hn2 & Ht2 & Hl2 & Hok2 & Ha2 & _).
  destruct (enter_attached w2 _ _ Hok2 Ha2)
    as (w3 & E3 & Hd3 & Hl3 & Ho3 & Hn3 & Ht3 & Hok3 & Ha3).
  rewrite Fc1 in *.
  destruct (Hf (emit (OutQuery q) (emit (OutStr "Query") w3)))
    as (w5 & E5 & Ha5 & Hok5 & Hd5 & Hl5 & Ho5 & Hn5 & Ht5).
  { simpl. congruence. }
  { repeat split; try exact Hok3; try apply Ha3.
    simpl. now rewrite app_nil_r. }
  simpl in Hd5, Hl5, Ho5, Hn5, Ht5.
  destruct (exit_attached w5 _ _ Hok5 Ha5)
    as (w6 & E6 & Hd6 & Hl6 & Ho6 & Hn6 & Ht6 & Hok6 & Ha6).
  cbn [next_conn emit] in *.
  assert (Ew : with_counter (next_conn w)
                 (fun ctr =>
                    result <- lift (get_query (mkSession (next_conn w)) options) ;;
                    print (OutStr "Query") ;;
                    print (OutQuery result) ;;
                    first_and_dereference result ;;
                    ret ctr) w1
               = (inr (List.length (counters w)), w6)).
  { unfold with_counter. rewrite (bind_ok _ E2), (bind_ok _ E3).
    apply finally_ok with (w' := w5); [|exact E6].
    unfold bind at 1, lift. rewrite Hq. step. step.
    rewrite (bind_ok _ E5). reflexivity. }
  clearbody w1.
  exists (emit (OutInt k) (emit (OutStr "Statements") w6)). split.
  { apply finally_ok with (w' := emit (OutInt k) (emit (OutStr "Statements") w6));
      [|reflexivity].
    step. rewrite (bind_ok _ Ew). step.
    rewrite (bind_ok _ (read_attached _ (emit (OutStr "Statements") w6)
                          _ _ Ha6)).
    reflexivity. }
  simpl. repeat split.
  - rewrite Ho6, Ho5, Ho3, Ho2, Fo1. now rewrite <- !app_assoc.
  - congruence.
  - exact Hok6.
  - rewrite Ht6, Ht5, Ht3, Ht2, Ft1. reflexivity.
Qed.

Lemma Query_first_in_scope (q : Query) (ws : World) (self k : nat)
  (w : World) (rows : list (list Entity)) :
  Query_rows q (db w) = Some rows ->
  in_scope ws (s_conn (q_session q)) self k w ->
  exists w',
    Query_first q w = (inr (first_value q (db w) rows), w') /\
    in_scope ws (s_conn (q_session q)) self (S k) w'.
Proof.
  intros Hr Hs.
  destruct (in_scope_execute _ _ _ _ _ Hs) as (w' & E & Hs').
  exists w'. split; auto.
  unfold Query_first, bind at 1, get. rewrite Hr, (bind_ok _ E).
  destruct rows as [|[|e row] rows]; reflexivity.
Qed.

(** A lazy load inside the counting scope: one more statement counted. *)
Lemma getattr_lazy (ws : World) (self k : nat) (w : World)
  (st : InstanceState) (e : Entity) (dict : list (string * Value))
  (name : string) (es : list Entity) :
  assoc name dict = None -> column_attr e name = None ->
  related (db w) e name = Some es -> lazy_selects e name = true ->
  in_scope ws (st_conn st) self k w ->
  exists w',
    getattr (VObj st e dict) name w
    = (inr (rel_value e name
              (map (load_instance (max_path (st_options st)) (db w)
                      (st_conn st) (st_options st) None
                      (st_path st ++ [name])) es)), w') /\
    in_scope ws (st_conn st) self (S k) w'.
Proof.
  intros H1 H2 H3 H4 Hs.
  destruct (in_scope_execute _ _ _ _ _ Hs) as (w' & E & Hs').
  exists w'. split; auto.
  simpl. rewrite H1, H2. unfold bind at 1, get. rewrite H3, H4.
  now rewrite (bind_ok _ E).
Qed.

Lemma in_scope_db (ws : World) (c self k : nat) (w : World) :
  in_scope ws c self k w -> db w = db ws.
Proof.
  intros H. apply H.
Qed.

(** On an empty result nothing is dereferenced: one statement. *)
Lemma first_and_dereference_empty (q : Query) (ws : World) (self : nat) :
  Query_rows q (db ws) = Some [] ->
  in_scope ws (s_conn (q_session q)) self 0 ws ->
  exists w2,
    first_and_dereference q ws = (inr tt, w2) /\
    in_scope ws (s_conn (q_session q)) self 1 w2.
Proof.
  intros Hr Hs.
  destruct (Query_first_in_scope q ws self 0 ws [] Hr Hs) as (w1 & E1 & Hs1).
  exists w1. split; auto.
  unfold first_and_dereference. now rewrite (bind_ok _ E1).
Qed.

Lemma bind_assoc {A B C} (m : M A) (k : A -> M B) (k' : B -> M C)
  (w : World) :
  bind (bind m k) k' w = bind m (fun x => bind (k x) k') w.
Proof.
  unfold bind. destruct (m w) as [[e|a] w']; reflexivity.
Qed.

Ltac lazy_step Hd lem :=
  lazymatch goal with
  | Hs : in_scope _ _ _ _ ?w
    |- context [bind (getattr (VObj ?st ?e ?dict) ?name) _ ?w] =>
      let Hrel := fresh "Hrel" in
      let w' := fresh "w" in
      let E := fresh "E" in
      let Hs' := fresh "Hs" in
      eassert (Hrel : related (db w) e name = Some _)
        by (rewrite (in_scope_db _ _ _ _ _ Hs), Hd; apply lem; lia);
      destruct (getattr_lazy _ _ _ w st e dict name _
                  eq_refl eq_refl Hrel eq_refl Hs) as (w' & E & Hs');
      rewrite (bind_ok _ E); clear E Hrel Hs;
      cbn [st_conn] in Hs';
      cbn [map load_instance max_path fold_right st_options st_conn st_path
           rel_value uselist app String.eqb Ascii.eqb Bool.eqb];
      rewrite ?bind_assoc
  end.

(** No options, seeded store: the select and four lazy loads. *)
Lemma first_and_dereference_simple (q : Query) (n : nat) (ws : World)
  (self : nat) :
  get_query (q_session q) ArgNone = inr q ->
  db ws = seeded (S n) ->
  in_scope ws (s_conn (q_session q)) self 0 ws ->
  exists w2,
    first_and_dereference q ws = (inr tt, w2) /\
    in_scope ws (s_conn (q_session q)) self 5 w2.
Proof.
  intros Hq Hd Hs.
  pose proof (Query_rows_seeded _ _ _ (S n) Hq) as Hr. rewrite <- Hd in Hr.
  destruct (Query_first_in_scope q ws self 0 ws _ Hr Hs) as (w1 & E1 & Hs1).
  unfold first_and_dereference. rewrite (bind_ok _ E1). clear E1.
  apply get_query_shape in Hq as (_ & _ & Hj & _ & Ho).
  unfold first_value. cbn [map seq]. rewrite Ho. cbn [truthy_arg].
  cbn [max_path fold_right seeded_row chain_row load_instance truthy].
  unfold dereference. rewrite !bind_assoc.
  clear Hs. lazy_step Hd related_user_seeded.
  lazy_step Hd related_my_accounts_seeded.
  step. rewrite ?bind_assoc.
  lazy_step Hd related_account_seeded.
  lazy_step Hd related_company_seeded.
  step.
  eexists. split; [reflexivity|eassumption].
Qed.

(** contains_eager on the whole path, seeded store: the select only. *)
Lemma first_and_dereference_eager (q : Query) (n : nat) (ws : World)
  (self : nat) :
  get_query (q_session q) (ArgList eager_options) = inr q ->
  db ws = seeded (S n) ->
  in_scope ws (s_conn (q_session q)) self 0 ws ->
  exists w2,
    first_and_dereference q ws = (inr tt, w2) /\
    in_scope ws (s_conn (q_session q)) self 1 w2.
Proof.
  intros Hq Hd Hs.
  pose proof (Query_rows_seeded _ _ _ (S n) Hq) as Hr. rewrite <- Hd in Hr.
  destruct (Query_first_in_scope q ws self 0 ws _ Hr Hs) as (w1 & E1 & Hs1).
  unfold first_and_dereference. rewrite (bind_ok _ E1). clear E1.
  apply get_query_shape in Hq as (_ & _ & Hj & _ & Ho).
  unfold first_value. cbn [map seq]. rewrite Ho, Hj.
  exists w1. split; [|exact Hs1].
  vm_compute. reflexivity.
Qed.

(** joinedload on the whole path, seeded store: the select only. *)
Lemma first_and_dereference_joinedload (q : Query) (n : nat) (ws : World)
  (self : nat) :
  get_query (q_session q) (ArgList joinedload_options) = inr q ->
  db ws = seeded (S n) ->
  in_scope ws (s_conn (q_session q)) self 0 ws ->
  exists w2,
    first_and_dereference q ws = (inr tt, w2) /\
    in_scope ws (s_conn (q_session q)) self 1 w2.
Proof.
  intros Hq Hd Hs.
  pose proof (Query_rows_seeded _ _ _ (S n) Hq) as Hr. rewrite <- Hd in Hr.
  destruct (Query_first_in_scope q ws self 0 ws _ Hr Hs) as (w1 & E1 & Hs1).
  unfold first_and_dereference. rewrite (bind_ok _ E1). clear E1.
  apply get_query_shape in Hq as (_ & _ & Hj & _ & Ho).
  unfold first_value. cbn [map seq]. rewrite Ho, Hj, Hd.
  exists w1. split; [|exact Hs1].
  cbn -[related seeded chain_person chain_user chain_user_account
        chain_account chain_company].
rewrite (related_user_seeded (S n) 0) by lia.
  cbn -[related seeded chain_person chain_user chain_user_account
        chain_account chain_company].
  rewrite (related_my_accounts_seeded (S n) 0) by lia.
  cbn -[related seeded chain_person chain_user chain_user_account
        chain_account chain_company].
  rewrite (related_account_seeded (S n) 0) by lia.
  cbn -[related seeded chain_person chain_user chain_user_account
        chain_account chain_company].
  rewrite (related_company_seeded (S n) 0) by lia.
  reflexivity.
Qed.

(** ** The scenarios on the seeded store *)

Lemma seeded_world_spec (n : nat) :
  populate_db n initial_world = (inr tt, seeded_world n) /\
  db (seeded_world n) = seeded n /\ refs_ok (seeded_world n) /\
  stdout (seeded_world n) = [].
Proof.
  destruct (populate_db_seeded n initial_world eq_refl eq_refl)
    as (w & E & Hd & _ & Hl & _ & _ & Ho).
  unfold seeded_world. rewrite E. simpl. repeat split; auto.
  intros l Hin. rewrite Hl in Hin. destruct Hin.
Qed.

Lemma Query_rows_empty (session : Session) (options : OptionsArg) (q : Query)
  (d : Store) :
  get_query session options = inr q -> persons d = [] ->
  Query_rows q d = Some [].
Proof.
  intros H Hp. rewrite (Query_rows_get_query session options q d H).
  unfold joined4, joined3, joined2, joined1. simpl. now rewrite Hp.
Qed.

(** What a scenario does on a store without persons. *)
Lemma scenario_no_person (banner : string) (options : OptionsArg) (q : Query)
  (w : World) :
  refs_ok w -> persons (db w) = [] ->
  get_query (mkSession (next_conn w)) options = inr q ->
  exists w',
    scenario banner options w = (inr tt, w') /\
    stdout w'
    = stdout w ++ [OutStr "--------"; OutStr banner; OutStr "Query";
                   OutQuery q; OutStr "Statements"; OutInt 1] /\
    db w' = db w /\ refs_ok w' /\
    executed (trace w') = executed (trace w) ++ repeat (next_conn w) 1.
Proof.
  intros Hok Hp Hq. apply scenario_outcome; auto.
  intros ws Hd Hs.
  pose proof (get_query_shape _ _ _ Hq) as (Hc & _).
  replace (next_conn w) with (s_conn (q_session q)) in * by now rewrite Hc.
  apply first_and_dereference_empty; auto.
  apply (Query_rows_empty _ _ _ _ Hq). now rewrite Hd.
Qed.

Lemma simple_query_seeded (n : nat) (w : World) :
  refs_ok w -> db w = seeded (S n) ->
  exists w' q,
    simple_query w = (inr tt, w') /\
    stdout w'
    = stdout w ++ [OutStr "--------"; OutStr "simple"; OutStr "Query";
                   OutQuery q; OutStr "Statements"; OutInt 5] /\
    db w' = db w /\ refs_ok w' /\
    executed (trace w') = executed (trace w) ++ repeat (next_conn w) 5.
Proof.
  intros Hok Hd.
  destruct (get_query (mkSession (next_conn w)) ArgNone) as [e|q] eqn:Hq;
    [discriminate|].
  destruct (scenario_outcome "simple" ArgNone q 5 w Hok Hq) as (w' & H).
  - intros ws Hd' Hs.
    pose proof (get_query_shape _ _ _ Hq) as (Hc & _).
    replace (next_conn w) with (s_conn (q_session q)) in * by now rewrite Hc.
    apply (first_and_dereference_simple q n); auto.
    + now rewrite Hc.
    + congruence.
  - now exists w', q.
Qed.

Lemma joinedload_query_seeded (n : nat) (w : World) :
  refs_ok w -> db w = seeded (S n) ->
  exists w' q,
    joinedload_query w = (inr tt, w') /\
    stdout w'
    = stdout w ++ [OutStr "--------"; OutStr "joinedload"; OutStr "Query";
                   OutQuery q; OutStr "Statements"; OutInt 1] /\
    db w' = db w /\ refs_ok w' /\
    executed (trace w') = executed (trace w) ++ repeat (next_conn w) 1.
Proof.
  intros Hok Hd.
  destruct (get_query (mkSession (next_conn w)) (ArgList joinedload_options))
    as [e|q] eqn:Hq; [discriminate|].
  destruct (scenario_outcome "joinedload" (ArgList joinedload_options) q 1 w
              Hok Hq) as (w' & H).
  - intros ws Hd' Hs.
    pose proof (get_query_shape _ _ _ Hq) as (Hc & _).
    replace (next_conn w) with (s_conn (q_session q)) in * by now rewrite Hc.
    apply (first_and_dereference_joinedload q n); auto.
    + now rewrite Hc.
    + congruence.
  - now exists w', q.
Qed.

Lemma eager_query_seeded (n : nat) (w : World) :
  refs_ok w -> db w = seeded (S n) ->
  exists w' q,
    eager_query w = (inr tt, w') /\
    stdout w'
    = stdout w ++ [OutStr "--------"; OutStr "joinedload"; OutStr "Query";
                   OutQuery q; OutStr "Statements"; OutInt 1] /\
    db w' = db w /\ refs_ok w' /\
    executed (trace w') = executed (trace w) ++ repeat (next_conn w) 1.
Proof.
  intros Hok Hd.
  destruct (get_query (mkSession (next_conn w)) (ArgList eager_options))
    as [e|q] eqn:Hq; [discriminate|].
  destruct (scenario_outcome "joinedload" (ArgList eager_options) q 1 w
              Hok Hq) as (w' & H).
  - intros ws Hd' Hs.
    pose proof (get_query_shape _ _ _ Hq) as (Hc & _).
    replace (next_conn w) with (s_conn (q_session q)) in * by now rewrite Hc.
    apply (first_and_dereference_eager q n); auto.
    + now rewrite Hc.
    + congruence.
  - now exists w', q.
Qed.

Lemma last_int_snoc (out : list Out) (k : nat) :
  last_int (out ++ [OutInt k]) = Some k.
Proof.
  unfold last_int. now rewrite fold_left_app.
Qed.

Lemma statements_count (m : M unit) (w w' : World) (r : Exc + unit)
  (c k : nat) :
  m w = (r, w') ->
  executed (trace w') = executed (trace w) ++ repeat c k ->
  statements m w = k.
Proof.
  intros E Ht. unfold statements. rewrite E. simpl.
  rewrite Ht, length_app, repeat_length. lia.
Qed.

(** The three scenarios on the store seeded with at least one chain. *)
Lemma scenarios_seeded (n : nat) :
  reported simple_query (seeded_world (S n)) = Some 5 /\
  reported joinedload_query (seeded_world (S n)) = Some 1 /\
  reported eager_query (seeded_world (S n)) = Some 1 /\
  statements simple_query (seeded_world (S n)) = 5 /\
  statements joinedload_query (seeded_world (S n)) = 1 /\
  statements eager_query (seeded_world (S n)) = 1.
Proof.
  destruct (seeded_world_spec (S n)) as (_ & Hd & Hok & _).
  generalize dependent (seeded_world (S n)). intros w Hd Hok.
  assert (Hw0 : exists w0, refs_ok w0 /\ db w0 = seeded (S n) /\
                  stdout w0 = [] /\
                  forall m, reported m w = match m w0 with
                                           | (inr _, w') => last_int (stdout w')
                                           | (inl _, _) => None
                                           end).
  { eexists. repeat split; [exact Hok|exact Hd|reflexivity]. }
  destruct Hw0 as (w0 & Hok0 & Hd0 & Ho0 & Hr).
  repeat split.
  - destruct (simple_query_seeded n w0 Hok0 Hd0) as (w' & q & E & Ho & _).
    rewrite Hr, E, Ho, Ho0. reflexivity.
  - destruct (joinedload_query_seeded n w0 Hok0 Hd0) as (w' & q & E & Ho & _).
    rewrite Hr, E, Ho, Ho0. reflexivity.
  - destruct (eager_query_seeded n w0 Hok0 Hd0) as (w' & q & E & Ho & _).
    rewrite Hr, E, Ho, Ho0. reflexivity.
  - destruct (simple_query_seeded n w Hok Hd) as (w' & q & E & _ & _ & _ & Ht).
    apply (statements_count _ _ _ _ _ _ E Ht).
  - destruct (joinedload_query_seeded n w Hok Hd)
      as (w' & q & E & _ & _ & _ & Ht).
    apply (statements_count _ _ _ _ _ _ E Ht).
  - destruct (eager_query_seeded n w Hok Hd) as (w' & q & E & _ & _ & _ & Ht).
    apply (statements_count _ _ _ _ _ _ E Ht).
Qed.

Lemma script_runs (n : nat) :
  exists w',
    script n initial_world = (inr tt, w') /\
    printed_counts (stdout w') = [if Nat.eqb n 0 then 1 else 5; 1; 1].
Proof.
  destruct (seeded_world_spec n) as (E0 & Hd & Hok & Ho).
  unfold script. rewrite (bind_ok _ E0). clear E0.
  generalize dependent (seeded_world n). intros w Hd Hok Ho.
  destruct n as [|n].
  - destruct (get_query (mkSession (next_conn w)) ArgNone) as [|q1] eqn:Hq1;
      [discriminate|].
    destruct (scenario_no_person "simple" ArgNone q1 w Hok
                ltac:(now rewrite Hd) Hq1)
      as (w1 & E1 & Ho1 & Hd1 & Hok1 & _).
    destruct (get_query (mkSession (next_conn w1)) (ArgList joinedload_options))
      as [|q2] eqn:Hq2; [discriminate|].
    destruct (scenario_no_person "joinedload" _ q2 w1 Hok1
                ltac:(now rewrite Hd1, Hd) Hq2)
      as (w2 & E2 & Ho2 & Hd2 & Hok2 & _).
    destruct (get_query (mkSession (next_conn w2)) (ArgList eager_options))
      as [|q3] eqn:Hq3; [discriminate|].
    destruct (scenario_no_person "joinedload" _ q3 w2 Hok2
                ltac:(now rewrite Hd2, Hd1, Hd) Hq3)
      as (w3 & E3 & Ho3 & _).
    exists w3. split.
    + unfold simple_query, joinedload_query, eager_query.
      now rewrite (bind_ok _ E1), (bind_ok _ E2).
    + rewrite Ho3, Ho2, Ho1, Ho. reflexivity.
  - destruct (simple_query_seeded n w Hok Hd)
      as (w1 & q1 & E1 & Ho1 & Hd1 & Hok1 & _).
    destruct (joinedload_query_seeded n w1 Hok1 ltac:(congruence))
      as (w2 & q2 & E2 & Ho2 & Hd2 & Hok2 & _).
    destruct (eager_query_seeded n w2 Hok2 ltac:(congruence))
      as (w3 & q3 & E3 & Ho3 & _).
    exists w3. split.
    + now rewrite (bind_ok _ E1), (bind_ok _ E2).
    + rewrite Ho3, Ho2, Ho1, Ho. reflexivity.
Qed.

(** Claim C1. Whatever the number [n] of seeded chains, the script runs to
    its end and prints three statement counts, for the no-strategy, the
    joined-load and the contains-eager scenario in this order, and the first
    is at least the second and at least the third. *)
Theorem no_strategy_count_is_largest :
  forall n : nat,
    exists w' simple joined eager,
      script n initial_world = (inr tt, w') /\
      printed_counts (stdout w') = [simple; joined; eager] /\
      joined <= simple /\ eager <= simple.
Proof.
  intros n. destruct (script_runs n) as (w' & E & Hp).
  exists w', (if Nat.eqb n 0 then 1 else 5), 1, 1.
  repeat split; auto; destruct (Nat.eqb n 0); lia.
Qed.

(** Claim C2. On a store seeded with at least one chain the query has a
    first result, and both the joined-load and the contains-eager scenario
    report a statement count of 1 and execute one statement in all: the
    select of [first()] also serves the whole dereference
    [person.user.my_accounts[0].account.company.name]. *)
Theorem eager_strategies_take_one_statement :
  forall n : nat,
    0 < n ->
    (forall session options q,
        get_query session options = inr q ->
        exists rows,
          Query_rows q (db (seeded_world n)) = Some (seeded_row 0 :: rows)) /\
    reported joinedload_query (seeded_world n) = Some 1 /\
    reported eager_query (seeded_world n) = Some 1 /\
    statements joinedload_query (seeded_world n) = 1 /\
    statements eager_query (seeded_world n) = 1.
Proof.
  intros [|n] Hn; [lia|].
  destruct (scenarios_seeded n) as (_ & H1 & H2 & _ & H3 & H4).
  repeat split; auto.
  intros session options q Hq.
  destruct (seeded_world_spec (S n)) as (_ & Hd & _).
  rewrite Hd, (Query_rows_seeded _ _ _ _ Hq). simpl. eauto.
Qed.

Lemma eager_strategies_take_one_statement_witness :
  (forall session options q,
      get_query session options = inr q ->
      exists rows,
        Query_rows q (db (seeded_world 10)) = Some (seeded_row 0 :: rows)) /\
  reported joinedload_query (seeded_world 10) = Some 1 /\
  reported eager_query (seeded_world 10) = Some 1 /\
  statements joinedload_query (seeded_world 10) = 1 /\
  statements eager_query (seeded_world 10) = 1.
Proof.
  apply (eager_strategies_take_one_statement 10). lia.
Defined.

(** Claim C6. Seeded with no chain at all, the store is empty; in each of
    the three scenarios [first()] returns [None] and nothing is
    dereferenced; each scenario reports a statement count of 1 and executes
    one statement in all, the select. *)
Theorem scenarios_on_empty_store :
  db (seeded_world 0) = empty_store /\
  no_first_result ArgNone (seeded_world 0) /\
  no_first_result (ArgList joinedload_options) (seeded_world 0) /\
  no_first_result (ArgList eager_options) (seeded_world 0) /\
  reported simple_query (seeded_world 0) = Some 1 /\
  reported joinedload_query (seeded_world 0) = Some 1 /\
  reported eager_query (seeded_world 0) = Some 1 /\
  statements simple_query (seeded_world 0) = 1 /\
  statements joinedload_query (seeded_world 0) = 1 /\
  statements eager_query (seeded_world 0) = 1.
Proof.
  split; [reflexivity|].
  repeat split;
    try (do 2 eexists; repeat split; vm_compute; reflexivity);
    vm_compute; reflexivity.
Qed.

(** Claim C8, as amended. Every [Account] row [populate_db] creates, for
    every number of iterations, has the status "x{i}" with the placeholder
    left as it is: a string of four characters (not seven), the same for all
    accounts, which passes the case-insensitive "x%" filter of the query. *)
Theorem account_status_is_literal :
  forall n : nat,
    exists w',
      populate_db n initial_world = (inr tt, w') /\
      List.length (accounts (db w')) = n /\
      forall a,
        In a (accounts (db w')) ->
        exists s,
          Account.status a = Some s /\ s = "x{i}" /\
          String.length s = 4 /\ ilike (Some s) "x%" = true.
Proof.
  intros n.
  destruct (populate_db_seeded n initial_world eq_refl eq_refl)
    as (w' & E & Hd & _).
  exists w'. split; [exact E|]. rewrite Hd. simpl. split.
  - now rewrite length_map, length_seq.
  - intros a Ha. apply in_map_iff in Ha as (i & <- & _).
    exists "x{i}". repeat split.
Qed.

(** Claim C8 as stated fails: the status is not seven characters long. *)
Lemma account_status_is_not_seven_characters :
  ~ (forall n : nat,
        exists w',
          populate_db n initial_world = (inr tt, w') /\
          forall a,
            In a (accounts (db w')) ->
            exists s,
              Account.status a = Some s /\ s = "x{i}" /\
              String.length s = 7 /\ ilike (Some s) "x%" = true).
Proof.
  intros H. destruct (H 1) as (w' & E & Ha).
  vm_compute in E. injection E as <-.
  destruct (Ha (Account.mk 1 (Some "x{i}") (Some 1)))
    as (s & _ & -> & Hl & _); [now left|].
  discriminate Hl.
Qed.

(** ** Missing links *)

(** Claim C7 as stated fails: the query selects the person, the first
    account of its user has no company, and reading [.name] of that [None]
    raises [AttributeError] out of the no-strategy and of the joined-load
    scenario, which then report no count. *)
Lemma missing_company_raises :
  (exists q,
      get_query (mkSession 0) ArgNone = inr q /\
      Query_rows q broken_store
      = Some [chain_row (Person.mk 1 (Some "test0")) (User.mk 1 (Some 1))
                (UserAccount.mk 2 1) (Account.mk 2 (Some "x{i}") (Some 1))
                (Company.mk 1 (Some "company0"))]) /\
  fst (simple_query broken_world) = inl AttributeError /\
  fst (joinedload_query broken_world) = inl AttributeError /\
  reported simple_query broken_world = None /\
  reported joinedload_query broken_world = None.
Proof.
  split; [eexists; split; vm_compute; reflexivity|].
  repeat split; vm_compute; reflexivity.
Qed.

Lemma bind_raises {A B} (m : M A) (k : A -> M B) (w w' : World) (e : Exc) :
  m w = (inl e, w') -> bind m k w = (inl e, w').
Proof.
  intros E. unfold bind. now rewrite E.
Qed.

Lemma quiet_bind {A B} (m : M A) (k : A -> M B) :
  quiet m -> (forall a, quiet (k a)) -> quiet (bind m k).
Proof.
  intros Hm Hk w. unfold bind. specialize (Hm w).
  destruct (m w) as [[e|a] w']; simpl in *; auto.
  rewrite <- Hm. apply Hk.
Qed.

Lemma quiet_ret {A} (a : A) : quiet (ret a).
Proof.
  intros w. reflexivity.
Qed.

Lemma quiet_execute (c : nat) : quiet (execute c).
Proof.
  intros w. reflexivity.
Qed.

Lemma quiet_getattr (v : Value) (name : string) : quiet (getattr v name).
Proof.
  intros w. destruct v as [| | |st e dict|]; try reflexivity. simpl.
  destruct (assoc name dict); [reflexivity|].
  destruct (column_attr e name); [reflexivity|].
  unfold bind, get.
  destruct (related (db w) e name); [|reflexivity].
  destruct (lazy_selects e name); reflexivity.
Qed.

Lemma quiet_getitem (v : Value) (i : nat) : quiet (getitem v i).
Proof.
  intros w. destruct v as [| | | |items]; try reflexivity. simpl.
  destruct (nth_error items i); reflexivity.
Qed.

Lemma quiet_dereference (person : Value) : quiet (dereference person).
Proof.
  unfold dereference.
  repeat (apply quiet_bind; [|intros ?]);
    auto using quiet_getattr, quiet_getitem.
Qed.

Lemma quiet_Query_first (q : Query) : quiet (Query_first q).
Proof.
  intros w. unfold Query_first, bind at 1, get.
  destruct (Query_rows q (db w)) as [[|[|e row] rows]|]; reflexivity.
Qed.

Lemma quiet_first_and_dereference (q : Query) :
  quiet (first_and_dereference q).
Proof.
  unfold first_and_dereference.
  apply quiet_bind; [apply quiet_Query_first|]. intros person.
  destruct (truthy person); [|apply quiet_ret].
  apply quiet_bind; [apply quiet_dereference|]. intros; apply quiet_ret.
Qed.

Lemma quiet_mutate f (self : nat) : quiet (mutate f self).
Proof.
  intros w. unfold mutate, bind, get.
  destruct (nth_error (counters w) self); reflexivity.
Qed.

(** An error of the fetch-and-dereference part leaves the scenario: both
    [with] blocks end, nothing catches it, and no count is printed. *)
Lemma scenario_raises (banner : string) (options : OptionsArg) (q : Query)
  (w : World) :
  get_query (mkSession (next_conn w)) options = inr q ->
  (forall ws, db ws = db w ->
              exists e w2, first_and_dereference q ws = (inl e, w2)) ->
  exists e w',
    scenario banner options w = (inl e, w') /\
    printed_counts (stdout w') = printed_counts (stdout w).
Proof.
  intros Hq Hf. unfold scenario.
  step. step. unfold with_session. step. cbn [next_conn emit].
  set (w1 := set_next_conn _ _).
  set (self := List.length (counters w)).
  set (w3 := set_counters
               (counters w ++ [DBStatementCounter.__enter__
                                 (DBStatementCounter.__init__ (next_conn w))])
               (set_listeners (listeners w ++ [(next_conn w, self)]) w1)).
  set (ws := emit (OutQuery q) (emit (OutStr "Query") w3)).
  destruct (Hf ws eq_refl) as (e & w5 & E5).
  pose proof (quiet_first_and_dereference q ws) as Ho5.
  rewrite E5 in Ho5; simpl in Ho5.
  pose proof (quiet_mutate DBStatementCounter.__exit__ self w5) as Ho6.
  destruct (mutate DBStatementCounter.__exit__ self w5) as [r6 w6] eqn:E6.
  simpl in Ho6.
  assert (Ew : exists e',
             with_counter (next_conn w)
               (fun ctr =>
                  result <- lift (get_query (mkSession (next_conn w)) options) ;;
                  print (OutStr "Query") ;;
                  print (OutQuery result) ;;
                  first_and_dereference result ;;
                  ret ctr) w1
             = (inl e', w6)).
  { unfold with_counter.
    assert (E2 : new_counter (next_conn w) w1
                 = (inr self,
                    set_listeners (listeners w ++ [(next_conn w, self)])
                      (set_counters
                         (counters w
                          ++ [DBStatementCounter.__init__ (next_conn w)]) w1)))
      by (cbv [new_counter bind get modify ret]; reflexivity).
    rewrite (bind_ok _ E2).
    assert (E3 : enter self
                   (set_listeners (listeners w ++ [(next_conn w, self)])
                      (set_counters
                         (counters w
                          ++ [DBStatementCounter.__init__ (next_conn w)]) w1))
                 = (inr self, w3)).
    { unfold enter, mutate, bind, get. cbn [counters set_listeners
                                            set_counters set_next_conn emit w1].
      subst self. rewrite nth_error_snoc. cbn [modify ret].
      rewrite store_at_snoc. reflexivity. }
    rewrite (bind_ok _ E3). unfold finally, exit.
    unfold bind at 1, lift. rewrite Hq. step. step.
    rewrite (bind_raises _ _ _ _ _ E5), E6.
    destruct r6 as [e'|[]]; eauto. }
  destruct Ew as (e' & Ew).
  exists e', w6. split.
  - unfold finally. step. now rewrite (bind_raises _ _ _ _ _ Ew).
  - rewrite Ho6, Ho5. subst ws w3 w1. cbn [stdout emit set_counters
                                            set_listeners set_next_conn].
    unfold printed_counts. rewrite <- !app_assoc, flat_map_app. simpl.
    now rewrite app_nil_r.
Qed.

(** Claim C7, as amended. The dereference is guarded against one thing
    only, the absence of a first result: when [first()] returns [None]
    nothing is dereferenced and nothing is raised. A missing link in the
    chain of a fetched first result is not short-circuited: a user, account
    or company that is [None] makes the next attribute access raise
    [AttributeError], an empty [my_accounts] makes [[0]] raise
    [IndexError]; the error leaves the guarded block, a [with] block it
    passes through still ends in an error, and a scenario whose fetch and
    dereference raises ends in an error without printing a count. *)
Theorem missing_link_is_not_guarded :
  forall w : World,
    (forall q w1,
        Query_first q w = (inr VNone, w1) ->
        first_and_dereference q w = (inr tt, w1)) /\
    (forall name, getattr VNone name w = (inl AttributeError, w)) /\
    getitem (VList []) 0 w = (inl IndexError, w) /\
    (forall person w1,
        getattr person "user" w = (inr VNone, w1) ->
        dereference person w = (inl AttributeError, w1)) /\
    (forall person user w1 w2,
        getattr person "user" w = (inr user, w1) ->
        getattr user "my_accounts" w1 = (inr (VList []), w2) ->
        dereference person w = (inl IndexError, w2)) /\
    (forall person user ua rest w1 w2 w3,
        getattr person "user" w = (inr user, w1) ->
        getattr user "my_accounts" w1 = (inr (VList (ua :: rest)), w2) ->
        getattr ua "account" w2 = (inr VNone, w3) ->
        dereference person w = (inl AttributeError, w3)) /\
    (forall person user ua rest account w1 w2 w3 w4,
        getattr person "user" w = (inr user, w1) ->
        getattr user "my_accounts" w1 = (inr (VList (ua :: rest)), w2) ->
        getattr ua "account" w2 = (inr account, w3) ->
        getattr account "company" w3 = (inr VNone, w4) ->
        dereference person w = (inl AttributeError, w4)) /\
    (forall q person e w1 w2,
        Query_first q w = (inr person, w1) ->
        truthy person = true ->
        dereference person w1 = (inl e, w2) ->
        first_and_dereference q w = (inl e, w2)) /\
    (forall (body : M unit) (cleanup : M unit) e w1,
        body w = (inl e, w1) ->
        exists e' w2, finally body cleanup w = (inl e', w2)) /\
    (forall banner options q,
        get_query (mkSession (next_conn w)) options = inr q ->
        (forall ws, db ws = db w ->
                    exists e w2, first_and_dereference q ws = (inl e, w2)) ->
        exists e w',
          scenario banner options w = (inl e, w') /\
          printed_counts (stdout w') = printed_counts (stdout w)).
Proof.
  intros w. repeat apply conj.
  - intros q w1 E. unfold first_and_dereference. now rewrite (bind_ok _ E).
  - reflexivity.
  - reflexivity.
  - intros person w1 E1. unfold dereference. now rewrite (bind_ok _ E1).
  - intros person user w1 w2 E1 E2. unfold dereference.
    now rewrite (bind_ok _ E1), (bind_ok _ E2).
  - intros person user ua rest w1 w2 w3 E1 E2 E3. unfold dereference.
    rewrite (bind_ok _ E1), (bind_ok _ E2). step.
    now rewrite (bind_ok _ E3).
  - intros person user ua rest account w1 w2 w3 w4 E1 E2 E3 E4.
    unfold dereference.
    rewrite (bind_ok _ E1), (bind_ok _ E2). step.
    now rewrite (bind_ok _ E3), (bind_ok _ E4).
  - intros q person e w1 w2 E1 Ht E2. unfold first_and_dereference.
    rewrite (bind_ok _ E1), Ht. now apply bind_raises.
  - intros body cleanup e w1 E. unfold finally. rewrite E.
    destruct (cleanup w1) as [[e'|[]] w2]; eauto.
  - intros banner options q Hq Hf. now apply (scenario_raises _ _ q).
Qed.

Lemma missing_link_is_not_guarded_witness :
  fst (dereference
         (VObj (mkState 0 [] []) (EPerson (Person.mk 1 (Some "test0"))) [])
         broken_world)
  = inl AttributeError.
Proof.
  destruct (missing_link_is_not_guarded broken_world)
    as (_ & _ & _ & _ & _ & _ & H & _).
  erewrite H; [reflexivity | reflexivity ..].
Defined.

(* ===================================================================== *)
(** * Further properties                                                  *)
(* ===================================================================== *)

(** ** Several counters, nested scopes and scopes left by an exception *)

(** A method run on one counter object leaves every other one alone. *)
Lemma mutate_other f (w : World) (self r : nat) cnt :
  r <> self -> attached w r cnt -> attached (snd (mutate f self w)) r cnt.
Proof.
  intros Hne [Hn Hl]. unfold mutate, bind, get.
  destruct (nth_error (counters w) self) eqn:E; simpl; [|now split].
  split; [|exact Hl]. simpl. rewrite nth_error_store_at_ne; auto.
Qed.

Lemma attached_bound (w : World) (r : nat) cnt :
  attached w r cnt -> r < List.length (counters w).
Proof.
  intros [Hn _]. apply nth_error_Some. congruence.
Qed.

(** Two counter objects through a run of statements. *)
Lemma execute_all_both (conns : list nat) (w : World) (a b : nat) ca cb :
  refs_ok w -> attached w a ca -> attached w b cb ->
  exists w',
    execute_all conns w = (inr tt, w') /\ refs_ok w' /\
    attached w' a
      (Nat.iter (count_occ Nat.eq_dec conns (DBStatementCounter.conn ca))
         DBStatementCounter.callback ca) /\
    attached w' b
      (Nat.iter (count_occ Nat.eq_dec conns (DBStatementCounter.conn cb))
         DBStatementCounter.callback cb).
Proof.
  intros Hok Ha Hb.
  destruct (execute_all_attached conns w a ca Hok Ha)
    as (w1 & E1 & _ & _ & _ & _ & Hok1 & Ha1).
  destruct (execute_all_attached conns w b cb Hok Hb)
    as (w2 & E2 & _ & _ & _ & _ & _ & Hb2).
  rewrite E1 in E2. injection E2 as <-. now exists w1.
Qed.

(** Two counter objects through a method run on the first. *)
Lemma mutate_both f (w : World) (a b : nat) ca cb :
  refs_ok w -> attached w a ca -> attached w b cb -> a <> b ->
  DBStatementCounter.conn (f ca) = DBStatementCounter.conn ca ->
  exists w',
    mutate f a w = (inr tt, w') /\ refs_ok w' /\
    attached w' a (f ca) /\ attached w' b cb.
Proof.
  intros Hok Ha Hb Hne Hc.
  destruct (mutate_attached f w a ca Hc Ha) as (w' & E & _ & _ & _ & _ & _ & Ha').
  exists w'. split; [exact E|].
  replace w' with (snd (mutate f a w)) in * by now rewrite E.
  repeat split; try apply Ha'.
  - now apply mutate_refs_ok.
  - apply (mutate_other f w a b cb); auto.
  - apply (mutate_other f w a b cb); auto.
Qed.

Lemma enter_both (w : World) (a b : nat) ca cb :
  refs_ok w -> attached w a ca -> attached w b cb -> a <> b ->
  exists w',
    enter a w = (inr a, w') /\ refs_ok w' /\
    attached w' a (DBStatementCounter.__enter__ ca) /\ attached w' b cb.
Proof.
  intros Hok Ha Hb Hne.
  destruct (mutate_both DBStatementCounter.__enter__ w a b ca cb
              Hok Ha Hb Hne eq_refl) as (w' & E & H).
  exists w'. split; [|exact H]. unfold enter. now rewrite (bind_ok _ E).
Qed.

Lemma exit_both (w : World) (a b : nat) ca cb :
  refs_ok w -> attached w a ca -> attached w b cb -> a <> b ->
  exists w',
    exit a w = (inr tt, w') /\ refs_ok w' /\
    attached w' a (DBStatementCounter.__exit__ ca) /\ attached w' b cb.
Proof.
  intros Hok Ha Hb Hne.
  exact (mutate_both DBStatementCounter.__exit__ w a b ca cb
           Hok Ha Hb Hne eq_refl).
Qed.

(** Extra X1. Entering a counter that is already entered and leaving that
    inner scope stops the counting for the rest of the outer scope:
    [__exit__] clears the flag whatever the nesting. Of the statements run
    before, inside and after the inner scope, only the first two groups are
    counted. *)
Theorem nested_scope_stops_counting :
  forall (w : World) (self : nat) (cnt : DBStatementCounter.t)
         (before inner after : list nat),
    refs_ok w ->
    attached w self cnt ->
    exists w',
      (enter self ;; execute_all before ;;
       enter self ;; execute_all inner ;; exit self ;;
       execute_all after ;;
       exit self ;;
       get_count self) w
      = (inr (DBStatementCounter.count cnt
              + count_occ Nat.eq_dec before (DBStatementCounter.conn cnt)
              + count_occ Nat.eq_dec inner (DBStatementCounter.conn cnt)),
         w').
Proof.
  intros w self cnt before inner after Hok Ha.
  destruct (enter_attached _ _ _ Hok Ha)
    as (w1 & E1 & _ & _ & _ & _ & _ & Hok1 & Ha1).
  rewrite (bind_ok _ E1).
  destruct (execute_all_attached before _ _ _ Hok1 Ha1)
    as (w2 & E2 & _ & _ & _ & _ & Hok2 & Ha2).
  rewrite (bind_ok _ E2), callback_iter in *; simpl in Ha2.
  destruct (enter_attached _ _ _ Hok2 Ha2)
    as (w3 & E3 & _ & _ & _ & _ & _ & Hok3 & Ha3).
  rewrite (bind_ok _ E3).
  destruct (execute_all_attached inner _ _ _ Hok3 Ha3)
    as (w4 & E4 & _ & _ & _ & _ & Hok4 & Ha4).
  rewrite (bind_ok _ E4), callback_iter in *; simpl in Ha4.
  destruct (exit_attached _ _ _ Hok4 Ha4)
    as (w5 & E5 & _ & _ & _ & _ & _ & Hok5 & Ha5).
  rewrite (bind_ok _ E5).
  destruct (execute_all_attached after _ _ _ Hok5 Ha5)
    as (w6 & E6 & _ & _ & _ & _ & Hok6 & Ha6).
  rewrite (bind_ok _ E6), callback_iter in *; simpl in Ha6.
  destruct (exit_attached _ _ _ Hok6 Ha6)
    as (w7 & E7 & _ & _ & _ & _ & _ & Hok7 & Ha7).
  rewrite (bind_ok _ E7).
  rewrite (get_count_attached _ _ _ Ha7). simpl. now exists w7.
Qed.

Lemma nested_scope_stops_counting_witness :
  exists w',
    (enter 0 ;; execute_all [0; 1] ;;
     enter 0 ;; execute_all [0] ;; exit 0 ;;
     execute_all [0; 0; 0] ;;
     exit 0 ;;
     get_count 0) used_counter_world
    = (inr (3 + 1 + 1), w').
Proof.
  apply (nested_scope_stops_counting used_counter_world 0
           (DBStatementCounter.mk 0 3 false) [0; 1] [0] [0; 0; 0]).
  - intros l H. simpl in H. destruct H as [<-|[]]. simpl. lia.
  - split; [reflexivity|]. intros [|c]; reflexivity.
Defined.

(** Extra X2. Two counters built on the same connection count
    independently of each other: with the scope of the second nested in the
    scope of the first, the first counts the statements on the connection
    before, inside and after the inner scope, the second only those
    inside. *)
Theorem two_counters_count_independently :
  forall (w : World) (conn : nat) (before inner after : list nat),
    refs_ok w ->
    exists w',
      (a <- new_counter conn ;;
       b <- new_counter conn ;;
       enter a ;; execute_all before ;;
       enter b ;; execute_all inner ;; exit b ;;
       execute_all after ;;
       exit a ;;
       na <- get_count a ;;
       nb <- get_count b ;;
       ret (na, nb)) w
      = (inr (count_occ Nat.eq_dec before conn
              + count_occ Nat.eq_dec inner conn
              + count_occ Nat.eq_dec after conn,
              count_occ Nat.eq_dec inner conn), w').
Proof.
  intros w conn before inner after Hok.
  destruct (new_counter_attached w conn Hok)
    as (w1 & E1 & _ & _ & _ & _ & _ & Hok1 & Ha1 & _).
  rewrite (bind_ok _ E1).
  destruct (new_counter_attached w1 conn Hok1)
    as (w2 & E2 & _ & _ & _ & _ & _ & Hok2 & Hb2 & Hkeep).
  rewrite (bind_ok _ E2).
  pose proof (Hkeep _ _ Ha1) as Ha2.
  pose proof (attached_bound _ _ _ Ha1) as Hlt.
  set (a := List.length (counters w)) in *.
  set (b := List.length (counters w1)) in *.
  assert (Hab : a <> b) by lia.
  assert (Hba : b <> a) by lia.
  clearbody a b. clear Hkeep Ha1 Hok1 E1 E2 Hlt.
  destruct (enter_both w2 a b _ _ Hok2 Ha2 Hb2 Hab) as (w3 & E3 & Hok3 & Ha3 & Hb3).
  rewrite (bind_ok _ E3).
  destruct (execute_all_both before w3 a b _ _ Hok3 Ha3 Hb3)
    as (w4 & E4 & Hok4 & Ha4 & Hb4).
  rewrite (bind_ok _ E4), callback_iter in *; simpl in Ha4, Hb4.
  destruct (enter_both w4 b a _ _ Hok4 Hb4 Ha4 Hba) as (w5 & E5 & Hok5 & Hb5 & Ha5).
  rewrite (bind_ok _ E5).
  destruct (execute_all_both inner w5 a b _ _ Hok5 Ha5 Hb5)
    as (w6 & E6 & Hok6 & Ha6 & Hb6).
  rewrite (bind_ok _ E6), callback_iter in *; simpl in Ha6, Hb6.
  destruct (exit_both w6 b a _ _ Hok6 Hb6 Ha6 Hba) as (w7 & E7 & Hok7 & Hb7 & Ha7).
  rewrite (bind_ok _ E7).
  destruct (execute_all_both after w7 a b _ _ Hok7 Ha7 Hb7)
    as (w8 & E8 & Hok8 & Ha8 & Hb8).
  rewrite (bind_ok _ E8), callback_iter in *; simpl in Ha8, Hb8.
  destruct (exit_both w8 a b _ _ Hok8 Ha8 Hb8 Hab) as (w9 & E9 & Hok9 & Ha9 & Hb9).
  rewrite (bind_ok _ E9).
  rewrite (bind_ok _ (get_count_attached _ _ _ Ha9)).
  rewrite (bind_ok _ (get_count_attached _ _ _ Hb9)).
  simpl. now exists w9.
Qed.

Lemma two_counters_count_independently_witness :
  exists w',
    (a <- new_counter 0 ;;
     b <- new_counter 0 ;;
     enter a ;; execute_all [0; 1] ;;
     enter b ;; execute_all [0; 0] ;; exit b ;;
     execute_all [1; 0] ;;
     exit a ;;
     na <- get_count a ;;
     nb <- get_count b ;;
     ret (na, nb)) initial_world
    = (inr (1 + 2 + 1, 2), w').
Proof.
  apply (two_counters_count_independently initial_world 0 [0; 1] [0; 0] [1; 0]).
  intros l H. simpl in H. destruct H.
Defined.

(** Extra X3. The [with] block of a counter ends the counting on both
    exits. Whatever statements the block runs and however it ends (a value
    or an exception), the outcome of the block is the outcome of the [with]
    statement, so an exception is not swallowed, and the counter is left
    switched off holding the number of statements that ran on its
    connection. *)
Theorem counter_scope_ends_on_both_exits :
  forall (A : Type) (w : World) (conn : nat) (inside : list nat)
         (outcome : Exc + A),
    refs_ok w ->
    exists w',
      with_counter conn (fun _ => execute_all inside ;; lift outcome) w
      = (outcome, w') /\
      attached w' (List.length (counters w))
        (DBStatementCounter.mk conn (count_occ Nat.eq_dec inside conn) false).
Proof.
  intros A w conn inside outcome Hok. unfold with_counter.
  destruct (new_counter_attached w conn Hok)
    as (w1 & E1 & _ & _ & _ & _ & _ & Hok1 & Ha1 & _).
  rewrite (bind_ok _ E1).
  destruct (enter_attached _ _ _ Hok1 Ha1)
    as (w2 & E2 & _ & _ & _ & _ & _ & Hok2 & Ha2).
  rewrite (bind_ok _ E2).
  destruct (execute_all_attached inside _ _ _ Hok2 Ha2)
    as (w3 & E3 & _ & _ & _ & _ & Hok3 & Ha3).
  rewrite callback_iter in Ha3; simpl in Ha3.
  destruct (exit_attached _ _ _ Hok3 Ha3)
    as (w4 & E4 & _ & _ & _ & _ & _ & _ & Ha4).
  exists w4. split; [|exact Ha4].
  apply finally_ok with (w' := w3); [|exact E4].
  now rewrite (bind_ok _ E3).
Qed.

Lemma counter_scope_ends_on_both_exits_witness :
  exists w',
    with_counter 0 (fun _ => execute_all [0; 1; 0] ;; lift (inl IndexError))
      initial_world
    = (@inl Exc unit IndexError, w') /\
    attached w' 0 (DBStatementCounter.mk 0 2 false).
Proof.
  apply (counter_scope_ends_on_both_exits unit initial_world 0 [0; 1; 0]
           (inl IndexError)).
  intros l H. simpl in H. destruct H.
Defined.

(** ** The [options] argument of [get_query] *)

(** Extra X4. [get_query] fails exactly when [options] is truthy and is no
    sequence ([True] or a non-zero integer): unpacking it with [*options]
    raises [TypeError], which is the only error [get_query] can raise. A
    tuple of loader options builds the same query as the list of the same
    options. *)
Theorem get_query_needs_a_sequence :
  forall (session : Session) (options : OptionsArg),
    (get_query session options = inl TypeError <->
     options = ArgBool true \/
     exists n, n <> 0%Z /\ options = ArgInt n) /\
    (forall e, get_query session options = inl e -> e = TypeError) /\
    (forall l,
        get_query session (ArgTuple l) = get_query session (ArgList l)) /\
    (forall l q,
        get_query session (ArgList l) = inr q -> q_options q = l).
Proof.
  intros session options. split; [|split; [|split]].
  - destruct options as [|l|l|[]|n]; unfold get_query; simpl.
    + split; [discriminate|]. intros [H|(n & _ & H)]; discriminate H.
    + split.
      * destruct l; discriminate.
      * intros [H|(n & _ & H)]; discriminate H.
    + split.
      * destruct l; discriminate.
      * intros [H|(n & _ & H)]; discriminate H.
    + split; auto.
    + split; [discriminate|]. intros [H|(n & _ & H)]; discriminate H.
    + destruct (Z.eqb_spec n 0) as [->|Hn]; simpl.
      * split; [discriminate|].
        intros [H|(n & Hn & [= <-])]; [discriminate H|congruence].
      * split; auto. intros _. right. now exists n.
  - intros e. unfold get_query.
    destruct options as [|l|l|[]|n]; simpl;
      try (destruct l; simpl); try (destruct (Z.eqb n 0); simpl);
      congruence.
  - intros l. unfold get_query. destruct l; reflexivity.
  - intros l q. unfold get_query. destruct l; simpl; now intros [= <-].
Qed.

(** ** What a scenario leaves alone *)

Section Keeps.
Context {B : Type} (f : World -> B).
Hypothesis f_set_counters : forall cs w, f (set_counters cs w) = f w.
Hypothesis f_set_listeners : forall ls w, f (set_listeners ls w) = f w.
Hypothesis f_set_next_conn : forall n w, f (set_next_conn n w) = f w.
Hypothesis f_log : forall e w, f (log e w) = f w.
Hypothesis f_emit : forall o w, f (emit o w) = f w.

Lemma keeps_ret {A} (a : A) : keeps f (ret a).
Proof.
  intros w. reflexivity.
Qed.

Lemma keeps_lift {A} (r : Exc + A) : keeps f (lift r).
Proof.
  intros w. reflexivity.
Qed.

Lemma keeps_bind {A C} (m : M A) (k : A -> M C) :
  keeps f m -> (forall a, keeps f (k a)) -> keeps f (bind m k).
Proof.
  intros Hm Hk w. unfold bind. specialize (Hm w).
  destruct (m w) as [[e|a] w']; simpl in *; auto.
  rewrite <- Hm. apply Hk.
Qed.

Lemma keeps_finally {A} (body : M A) (cleanup : M unit) :
  keeps f body -> keeps f cleanup -> keeps f (finally body cleanup).
Proof.
  intros Hb Hc w. unfold finally. specialize (Hb w).
  destruct (body w) as [r w1]. simpl in Hb. specialize (Hc w1).
  destruct (cleanup w1) as [[e|u] w2]; simpl in *; congruence.
Qed.

Lemma keeps_print (o : Out) : keeps f (print o).
Proof.
  intros w. apply f_emit.
Qed.

Lemma keeps_execute (c : nat) : keeps f (execute c).
Proof.
  intros w. unfold execute, modify. simpl. now rewrite f_log, f_set_counters.
Qed.

Lemma keeps_mutate g (self : nat) : keeps f (mutate g self).
Proof.
  intros w. unfold mutate, bind, get.
  destruct (nth_error (counters w) self); simpl; auto.
Qed.

Lemma keeps_read {A} (g : DBStatementCounter.t -> A) (self : nat) :
  keeps f (read g self).
Proof.
  intros w. unfold read, bind, get.
  destruct (nth_error (counters w) self); reflexivity.
Qed.

Lemma keeps_new_counter (conn : nat) : keeps f (new_counter conn).
Proof.
  intros w. cbv [new_counter bind get modify ret snd].
  now rewrite f_set_listeners, f_set_counters.
Qed.

Lemma keeps_new_session : keeps f new_session.
Proof.
  intros w. cbv [new_session bind get modify ret snd]. apply f_set_next_conn.
Qed.

Lemma keeps_getattr (v : Value) (name : string) : keeps f (getattr v name).
Proof.
  intros w. destruct v as [| | |st e dict|]; try reflexivity. simpl.
  destruct (assoc name dict); [reflexivity|].
  destruct (column_attr e name); [reflexivity|].
  unfold bind at 1, get.
  destruct (related (db w) e name); [|reflexivity].
  apply keeps_bind; [|intros; apply keeps_ret].
  destruct (lazy_selects e name); [apply keeps_execute|apply keeps_ret].
Qed.

Lemma keeps_getitem (v : Value) (i : nat) : keeps f (getitem v i).
Proof.
  intros w. destruct v as [| | | |items]; try reflexivity. simpl.
  destruct (nth_error items i); reflexivity.
Qed.

Lemma keeps_dereference (person : Value) : keeps f (dereference person).
Proof.
  unfold dereference.
  repeat (apply keeps_bind; [|intros ?]);
    auto using keeps_getattr, keeps_getitem.
Qed.

Lemma keeps_Query_first (q : Query) : keeps f (Query_first q).
Proof.
  intros w. unfold Query_first, bind at 1, get.
  destruct (Query_rows q (db w)) as [rows|]; [|reflexivity].
  apply keeps_bind; [apply keeps_execute|]. intros _.
  destruct rows as [|[|e row] rows]; apply keeps_ret.
Qed.

Lemma keeps_first_and_dereference (q : Query) :
  keeps f (first_and_dereference q).
Proof.
  unfold first_and_dereference.
  apply keeps_bind; [apply keeps_Query_first|]. intros person.
  destruct (truthy person); [|apply keeps_ret].
  apply keeps_bind; [apply keeps_dereference|]. intros; apply keeps_ret.
Qed.

Lemma keeps_scenario (banner : string) (options : OptionsArg) :
  keeps f (scenario banner options).
Proof.
  unfold scenario, with_session, with_counter, session_connection, enter,
    exit.
  repeat lazymatch goal with
         | |- keeps _ (bind _ _) => apply keeps_bind; [|intros ?]
         | |- keeps _ (finally _ _) => apply keeps_finally
         | |- keeps _ (print _) => apply keeps_print
         | |- keeps _ (ret _) => apply keeps_ret
         | |- keeps _ (lift _) => apply keeps_lift
         | |- keeps _ new_session => apply keeps_new_session
         | |- keeps _ (new_counter _) => apply keeps_new_counter
         | |- keeps _ (mutate _ _) => apply keeps_mutate
         | |- keeps _ (read _ _) => apply keeps_read
         | |- keeps _ (first_and_dereference _) =>
             apply keeps_first_and_dereference
         end.
Qed.

End Keeps.

(** Extra X5. A scenario only reads: whatever the world it starts in,
    whatever its options (those that make [get_query] fail included) and
    whether it returns or raises, it leaves the database, the mapped
    instances of earlier sessions and the pending list as they were. *)
Theorem scenario_never_writes :
  forall (banner : string) (options : OptionsArg) (w : World),
    db (snd (scenario banner options w)) = db w /\
    instances (snd (scenario banner options w)) = instances w /\
    pending (snd (scenario banner options w)) = pending w.
Proof.
  intros banner options w. repeat split.
  - now apply (keeps_scenario db).
  - now apply (keeps_scenario instances).
  - now apply (keeps_scenario pending).
Qed.

(** ** The cost of a scenario on any store *)

Lemma others_kept_refl (c : nat) (w : World) : others_kept c w w.
Proof.
  intros r cnt Ha _. exact Ha.
Qed.

Lemma others_kept_trans (c : nat) (w1 w2 w3 : World) :
  others_kept c w1 w2 -> others_kept c w2 w3 -> others_kept c w1 w3.
Proof.
  intros H12 H23 r cnt Ha Hne. apply H23; auto.
Qed.

(** A statement on [c] leaves the counters of other connections alone. *)
Lemma execute_others (c : nat) (w : World) :
  others_kept c w (snd (execute c w)).
Proof.
  intros r cnt Ha Hne.
  destruct (execute_attached w c r cnt Ha) as (w' & E & _ & _ & _ & _ & Ha').
  rewrite E. simpl.
  destruct (Nat.eqb_spec c (DBStatementCounter.conn cnt)); [congruence|].
  exact Ha'.
Qed.

Lemma costs_ret {A} (c self : nat) (a : A) (post : A -> Prop) :
  post a -> costs c self 0 (ret a) post.
Proof.
  intros Hp ws k w Hs. exists (inr a), w, 0. rewrite Nat.add_0_r.
  split; [reflexivity|]. split; [lia|]. split; [exact Hs|].
  split; [apply others_kept_refl|exact Hp].
Qed.

Lemma costs_raise {A} (c self : nat) (e : Exc) (post : A -> Prop) :
  costs c self 0 (raise e) post.
Proof.
  intros ws k w Hs. exists (inl e), w, 0. rewrite Nat.add_0_r.
  split; [reflexivity|]. split; [lia|]. split; [exact Hs|].
  split; [apply others_kept_refl|exact I].
Qed.

Lemma costs_bind {A B} (c self n n' : nat) (m : M A) (k : A -> M B)
  (P : A -> Prop) (Q : B -> Prop) :
  costs c self n m P -> (forall a, P a -> costs c self n' (k a) Q) ->
  costs c self (n + n') (bind m k) Q.
Proof.
  intros Hm Hk ws k0 w Hs.
  destruct (Hm ws k0 w Hs) as (r & w1 & j & E & Hj & Hs1 & Ho1 & Hp).
  destruct r as [e|a].
  - exists (inl e), w1, j. unfold bind. rewrite E.
    split; [reflexivity|]. split; [lia|]. split; [exact Hs1|].
    split; [exact Ho1|exact I].
  - destruct (Hk a Hp ws (k0 + j) w1 Hs1)
      as (r2 & w2 & j2 & E2 & Hj2 & Hs2 & Ho2 & Hq).
    exists r2, w2, (j + j2). rewrite (bind_ok _ E), Nat.add_assoc.
    split; [exact E2|]. split; [lia|]. split; [exact Hs2|].
    split; [|exact Hq]. now apply others_kept_trans with (w2 := w1).
Qed.

Lemma costs_execute (c self : nat) :
  costs c self 1 (execute c) (fun _ => True).
Proof.
  intros ws k w Hs.
  destruct (in_scope_execute _ _ _ _ _ Hs) as (w' & E & Hs').
  exists (inr tt), w', 1. rewrite Nat.add_1_r.
  split; [exact E|]. split; [lia|]. split; [exact Hs'|].
  split; [|exact I].
  replace w' with (snd (execute c w)) by now rewrite E.
  apply execute_others.
Qed.

Lemma forallb_flat_map {A B} (p : B -> bool) (g : A -> list B) (l : list A) :
  forallb p (flat_map g l) = forallb (fun x => forallb p (g x)) l.
Proof.
  induction l as [|x l IH]; simpl; auto.
  now rewrite forallb_app, IH.
Qed.

Lemma rel_value_conn_ok (c : nat) (e : Entity) (r : string)
  (vs : list Value) :
  forallb (conn_ok c) vs = true -> conn_ok c (rel_value e r vs) = true.
Proof.
  intros H. unfold rel_value. destruct (uselist e r); simpl; auto.
  destruct vs as [|v vs]; simpl in *; auto.
  apply andb_true_iff in H. apply H.
Qed.

(** Whatever the ORM loads for a session stays on the session's
    connection. *)
Lemma load_instance_conn_ok (depth : nat) :
  forall db c opts joined path e,
    conn_ok c (load_instance depth db c opts joined path e) = true.
Proof.
  induction depth as [|d IH]; intros db c opts joined path e;
    cbn [load_instance conn_ok st_conn]; rewrite Nat.eqb_refl; simpl; auto.
  rewrite forallb_flat_map. apply forallb_forall. intros r _.
  destruct (strategy_at opts (path ++ [r])) as [[|]|]; simpl; auto.
  - destruct (related db e r) as [es|]; simpl; auto.
    rewrite andb_true_r. apply rel_value_conn_ok.
    apply forallb_forall. intros v Hv.
    apply in_map_iff in Hv as (e' & <- & _). apply IH.
  - destruct joined as [[keys row]|]; simpl; auto.
    destruct (path_eqb _ _); simpl; auto.
    destruct (nth_error row _) as [e'|]; simpl; auto.
    rewrite andb_true_r. apply rel_value_conn_ok. simpl. now rewrite IH.
Qed.

Lemma assoc_conn_ok (c : nat) (name : string) (dict : list (string * Value))
  (x : Value) :
  forallb (fun kv => conn_ok c (snd kv)) dict = true ->
  assoc name dict = Some x -> conn_ok c x = true.
Proof.
  induction dict as [|[k v] d IH]; simpl; [discriminate|].
  intros H. apply andb_true_iff in H as [H1 H2].
  destruct (String.eqb name k); [now intros [= <-]|auto].
Qed.

Lemma column_attr_conn_ok (c : nat) (e : Entity) (name : string) (x : Value) :
  column_attr e name = Some x -> conn_ok c x = true.
Proof.
  destruct e as [p|u|co|a|ua]; simpl;
    repeat match goal with
           | |- context [if ?b then _ else _] => destruct b
           end;
    try discriminate; intros [= <-]; auto;
    unfold opt_str, opt_int;
    match goal with
    | |- context [match ?o with Some _ => _ | None => _ end] => now destruct o
    end.
Qed.

(** One attribute access inside the counting scope: at most one statement,
    a lazy load, and it is counted. *)
Lemma getattr_costs (c self : nat) (v : Value) (name : string) :
  conn_ok c v = true ->
  costs c self 1 (getattr v name) (fun v' => conn_ok c v' = true).
Proof.
  intros Hv.
  assert (W : forall (m : M Value),
             costs c self 0 m (fun v' => conn_ok c v' = true) ->
             costs c self 1 m (fun v' => conn_ok c v' = true)).
  { intros m Hm ws k w Hs.
    destruct (Hm ws k w Hs) as (r & w' & j & E & Hj & H).
    exists r, w', j. split; [exact E|]. split; [lia|exact H]. }
  destruct v as [| | |st e dict|]; try (apply W, costs_raise).
  simpl in Hv. apply andb_true_iff in Hv as [Hc Hd].
  apply Nat.eqb_eq in Hc. simpl.
  destruct (assoc name dict) as [x|] eqn:Ea.
  { apply W, costs_ret. exact (assoc_conn_ok c name dict x Hd Ea). }
  destruct (column_attr e name) as [x|] eqn:Ec.
  { apply W, costs_ret. exact (column_attr_conn_ok c e name x Ec). }
  intros ws k w Hs. unfold bind at 1, get.
  destruct (related (db w) e name) as [es|].
  - assert (Hr : conn_ok c
                   (rel_value e name
                      (map (load_instance (max_path (st_options st)) (db w)
                              (st_conn st) (st_options st) None
                              (st_path st ++ [name])) es)) = true).
    { apply rel_value_conn_ok, forallb_forall. intros v Hv.
      apply in_map_iff in Hv as (e' & <- & _). rewrite Hc.
      apply load_instance_conn_ok. }
    destruct (lazy_selects e name).
    + rewrite Hc in *.
      destruct (costs_execute c self ws k w Hs)
        as (r & w' & j & E & Hj & Hs' & Ho & _).
      destruct r as [e0|[]]; [discriminate E|].
      rewrite (bind_ok _ E). eexists _, w', j.
      split; [reflexivity|]. split; [exact Hj|]. split; [exact Hs'|].
      split; [exact Ho|exact Hr].
    + apply (W _ (costs_ret c self _ _ Hr) ws k w Hs).
  - apply (W _ (costs_raise c self AttributeError _) ws k w Hs).
Qed.

(** Reading [.name] never loads: no class has a relationship of that
    name. *)
Lemma getattr_name_costs (c self : nat) (v : Value) :
  costs c self 0 (getattr v "name") (fun _ => True).
Proof.
  destruct v as [| | |st e dict|]; try apply costs_raise. simpl.
  destruct (assoc "name" dict); [now apply costs_ret|].
  destruct (column_attr e "name"); [now apply costs_ret|].
  intros ws k w Hs. unfold bind at 1, get.
  assert (H : related (db w) e "name" = None) by (destruct e; reflexivity).
  rewrite H. apply (costs_raise c self AttributeError _ ws k w Hs).
Qed.

Lemma getitem_costs (c self : nat) (v : Value) (i : nat) :
  conn_ok c v = true ->
  costs c self 0 (getitem v i) (fun v' => conn_ok c v' = true).
Proof.
  intros Hv. destruct v as [| | | |items]; try apply costs_raise. simpl.
  destruct (nth_error items i) as [x|] eqn:E; [|apply costs_raise].
  apply costs_ret. simpl in Hv.
  apply (proj1 (forallb_forall _ _) Hv). now apply nth_error_In with (n := i).
Qed.

(** The chain dereference: at most four statements, one for each
    relationship it goes through. *)
Lemma dereference_costs (c self : nat) (person : Value) :
  conn_ok c person = true ->
  costs c self 4 (dereference person) (fun _ => True).
Proof.
  intros Hp. unfold dereference.
  apply (costs_bind c self 1 3 _ _ (fun v => conn_ok c v = true));
    [now apply getattr_costs|intros v1 H1].
  apply (costs_bind c self 1 2 _ _ (fun v => conn_ok c v = true));
    [now apply getattr_costs|intros v2 H2].
  apply (costs_bind c self 0 2 _ _ (fun v => conn_ok c v = true));
    [now apply getitem_costs|intros v3 H3].
  apply (costs_bind c self 1 1 _ _ (fun v => conn_ok c v = true));
    [now apply getattr_costs|intros v4 H4].
  apply (costs_bind c self 1 0 _ _ (fun v => conn_ok c v = true));
    [now apply getattr_costs|intros v5 H5].
  apply getattr_name_costs.
Qed.

(** [first()] on a query of [get_query]: the join is defined on every
    store, so exactly one statement runs, on the session's connection. *)
Lemma Query_first_run (session : Session) (options : OptionsArg) (q : Query)
  (self : nat) (ws : World) (k : nat) (w : World) :
  get_query session options = inr q ->
  in_scope ws (s_conn session) self k w ->
  exists v w',
    Query_first q w = (inr v, w') /\
    in_scope ws (s_conn session) self (S k) w' /\
    others_kept (s_conn session) w w' /\
    conn_ok (s_conn session) v = true.
Proof.
  intros Hq Hs.
  pose proof (Query_rows_get_query _ _ _ (db w) Hq) as Hr.
  pose proof (get_query_shape _ _ _ Hq) as (Hc & _).
  rewrite <- Hc in *.
  destruct (Query_first_in_scope q ws self k w _ Hr Hs) as (w' & E & Hs').
  eexists _, w'. split; [exact E|]. split; [exact Hs'|]. split.
  - assert (Hw : w' = snd (execute (s_conn (q_session q)) w)).
    { unfold Query_first, bind at 1, get in E. rewrite Hr in E.
      unfold bind in E.
      destruct (execute (s_conn (q_session q)) w) as [[e|[]] w1] eqn:Ex;
        [discriminate Ex|]. simpl.
      destruct (filter _ _) as [|[|e row] rows] in E; now injection E. }
    rewrite Hw. apply execute_others.
  - unfold first_value.
    destruct (filter _ _) as [|[|e row] rows]; auto.
    apply load_instance_conn_ok.
Qed.

(** Fetching and dereferencing, on any store: between one and five
    statements, all counted. *)
Lemma first_and_dereference_run (session : Session) (options : OptionsArg)
  (q : Query) (self : nat) (ws w : World) :
  get_query session options = inr q ->
  in_scope ws (s_conn session) self 0 w ->
  exists r w' k,
    first_and_dereference q w = (r, w') /\ 1 <= k <= 5 /\
    in_scope ws (s_conn session) self k w' /\
    others_kept (s_conn session) w w'.
Proof.
  intros Hq Hs.
  destruct (Query_first_run _ _ _ _ _ _ _ Hq Hs)
    as (v & w1 & E1 & Hs1 & Ho1 & Hv).
  unfold first_and_dereference. rewrite (bind_ok _ E1).
  destruct (truthy v).
  - destruct (dereference_costs _ self v Hv ws 1 w1 Hs1)
      as (r & w2 & j & E2 & Hj & Hs2 & Ho2 & _).
    exists (match r with inl e => inl e | inr _ => inr tt end), w2, (1 + j).
    split; [|split; [lia|split; [exact Hs2|]]].
    + unfold bind. rewrite E2. now destruct r.
    + now apply others_kept_trans with (w2 := w1).
  - exists (inr tt), w1, 1. repeat (split; [reflexivity || lia || assumption|]).
    assumption.
Qed.

Lemma enter_other (w : World) (self r : nat) cnt :
  r <> self -> attached w r cnt -> attached (snd (enter self w)) r cnt.
Proof.
  intros Hne Ha. pose proof (mutate_other DBStatementCounter.__enter__
                               w self r cnt Hne Ha) as H.
  unfold enter, bind.
  destruct (mutate DBStatementCounter.__enter__ self w) as [[e|[]] w'];
    exact H.
Qed.

(** A scenario on any store, for options that [get_query] accepts. It runs
    between one and five statements, all on the connection of its own
    session and all counted; it leaves its counter registered and switched
    off; it prints the count when the fetch and dereference returned and
    nothing after the query when it raised. *)
Lemma scenario_run (banner : string) (options : OptionsArg) (q : Query)
  (w : World) :
  refs_ok w ->
  get_query (mkSession (next_conn w)) options = inr q ->
  exists r w' k,
    scenario banner options w = (r, w') /\
    1 <= k <= 5 /\
    listeners w' = listeners w ++ [(next_conn w, List.length (counters w))] /\
    next_conn w' = S (next_conn w) /\
    refs_ok w' /\
    attached w' (List.length (counters w))
      (DBStatementCounter.mk (next_conn w) k false) /\
    executed (trace w') = executed (trace w) ++ repeat (next_conn w) k /\
    others_kept (next_conn w) w w' /\
    stdout w'
    = stdout w
      ++ [OutStr "--------"; OutStr banner; OutStr "Query"; OutQuery q]
      ++ match r with
         | inr _ => [OutStr "Statements"; OutInt k]
         | inl _ => []
         end.
Proof.
  intros Hok Hq. unfold scenario.
  step. step. unfold with_session. step. cbn [next_conn emit].
  set (c := next_conn w) in *.
  set (w1 := set_next_conn _ _).
  assert (Hok1 : refs_ok w1) by exact Hok.
  assert (F1 : next_conn w1 = S c /\
               trace w1 = trace w /\ counters w1 = counters w /\
               listeners w1 = listeners w /\
               stdout w1 = stdout w ++ [OutStr "--------"; OutStr banner]).
  { subst w1; simpl. rewrite <- app_assoc. auto. }
  destruct F1 as (Fn1 & Ft1 & Fc1 & Fl1 & Fo1).
  assert (K1 : others_kept c w w1) by (intros r cnt Ha _; exact Ha).
  destruct (new_counter_attached w1 c Hok1)
    as (w2 & E2 & _ & Ho2 & Hn2 & Ht2 & Hl2 & Hok2 & Ha2 & K2).
  destruct (enter_attached w2 _ _ Hok2 Ha2)
    as (w3 & E3 & _ & Hl3 & Ho3 & Hn3 & Ht3 & Hok3 & Ha3).
  rewrite Fc1 in *.
  set (self := List.length (counters w)) in *.
  assert (K3 : others_kept c w w3).
  { intros r cnt Ha Hne.
    replace w3 with (snd (enter self w2)) by now rewrite E3.
    apply enter_other.
    - apply attached_bound in Ha. subst self. lia.
    - apply K2, K1; auto. }
  set (ws := emit (OutQuery q) (emit (OutStr "Query") w3)).
  assert (Hs : in_scope ws c self 0 ws).
  { repeat split; try exact Hok3; try apply Ha3.
    simpl. now rewrite app_nil_r. }
  destruct (first_and_dereference_run (mkSession c) options q self ws ws Hq Hs)
    as (r5 & w5 & k & E5 & Hk & (Ha5 & Hok5 & _ & Hl5 & Ho5 & Hn5 & Ht5) & K5).
  cbn [s_conn] in *. simpl in Hl5, Ho5, Hn5, Ht5.
  destruct (exit_attached w5 _ _ Hok5 Ha5)
    as (w6 & E6 & _ & Hl6 & Ho6 & Hn6 & Ht6 & Hok6 & Ha6).
  assert (K6 : others_kept c w w6).
  { intros r cnt Ha Hne.
    replace w6 with (snd (mutate DBStatementCounter.__exit__ self w5))
      by (unfold exit in E6; now rewrite E6).
    apply mutate_other.
    - apply attached_bound in Ha. subst self. lia.
    - apply K5; [|exact Hne]. apply (K3 r cnt Ha Hne). }
  assert (Ew : with_counter c
                 (fun ctr =>
                    result <- lift (get_query (mkSession c) options) ;;
                    print (OutStr "Query") ;;
                    print (OutQuery result) ;;
                    first_and_dereference result ;;
                    ret ctr) w1
               = (match r5 with inl e => inl e | inr _ => inr self end, w6)).
  { unfold with_counter. rewrite (bind_ok _ E2), (bind_ok _ E3).
    apply finally_ok with (w' := w5); [|exact E6].
    unfold bind at 1, lift. rewrite Hq. step. step.
    fold ws. unfold bind. rewrite E5. now destruct r5. }
  clearbody w1 ws.
  destruct r5 as [e|[]].
  - exists (inl e), w6, k. split.
    { apply finally_ok with (w' := w6); [|reflexivity].
      step. now rewrite (bind_raises _ _ _ _ _ Ew). }
    split; [exact Hk|]. split; [congruence|]. split; [congruence|].
    split; [exact Hok6|]. split; [exact Ha6|]. split; [congruence|].
    split; [exact K6|].
    rewrite Ho6, Ho5, Ho3, Ho2, Fo1, <- !app_assoc. simpl.
    reflexivity.
  - exists (inr tt), (emit (OutInt k) (emit (OutStr "Statements") w6)), k.
    split.
    { apply finally_ok
        with (w' := emit (OutInt k) (emit (OutStr "Statements") w6));
        [|reflexivity].
      step. rewrite (bind_ok _ Ew). step.
      rewrite (bind_ok _ (read_attached _ (emit (OutStr "Statements") w6)
                            _ _ Ha6)).
      reflexivity. }
    split; [exact Hk|]. simpl.
    split; [congruence|]. split; [congruence|].
    split; [exact Hok6|]. split; [exact Ha6|]. split; [congruence|].
    split; [exact K6|].
    rewrite Ho6, Ho5, Ho3, Ho2, Fo1, <- !app_assoc. simpl.
    reflexivity.
Qed.

(** ** [populate_db] on a store that is not empty *)

Lemma next_id_gt (ids : list nat) (x : nat) : In x ids -> x < next_id ids.
Proof.
  unfold next_id. induction ids as [|y ids IH]; simpl; [easy|].
  intros [->|H]; [lia|]. specialize (IH H). lia.
Qed.


(** With every [user_account] row naming an account of the store, the next
    account key is in no [user_account] row. *)
Lemma accounts_exist_fresh (d : Store) (u : nat) :
  accounts_exist d ->
  existsb (same_key (UserAccount.mk (next_id (map Account.id (accounts d))) u))
    (user_accounts d) = false.
Proof.
  intros H. apply not_true_is_false. intros He.
  apply existsb_exists in He as (ua & Hin & Hk).
  destruct (H ua Hin) as (a & Ha & Hid).
  unfold same_key in Hk.
  cbn [UserAccount.account_id UserAccount.user_id] in Hk.
  apply andb_true_iff in Hk as [Hk _]. apply Nat.eqb_eq in Hk.
  assert (Account.id a < next_id (map Account.id (accounts d)))
    by (apply next_id_gt, in_map, Ha).
  lia.
Qed.

Lemma accounts_exist_append (d : Store) (i : nat) :
  accounts_exist d -> accounts_exist (append_chain d i).
Proof.
  intros H ua Hin. simpl in Hin. apply in_app_iff in Hin as [Hin|[<-|[]]].
  - destruct (H ua Hin) as (a & Ha & Hid). exists a. split; auto.
    simpl. apply in_app_iff. now left.
  - eexists. split; [simpl; apply in_app_iff; right; left; reflexivity|].
    reflexivity.
Qed.

(** One iteration of the loop of [populate_db] on any store that keeps
    [user_account.account_id] sound: it returns, and one chain with the next
    key of each table has been appended. *)
Lemma populate_chain_appends (session : Session) (i : nat) (w : World) :
  pending w = [] -> accounts_exist (db w) ->
  exists w',
    populate_chain session i w = (inr tt, w') /\
    db w' = append_chain (db w) i /\ pending w' = [] /\
    listeners w' = listeners w /\ next_conn w' = next_conn w /\
    List.length (counters w') = List.length (counters w) /\
    stdout w' = stdout w.
Proof.
  intros Hp Hx.
  pose proof (accounts_exist_fresh (db w)
                (next_id (map User.id (users (db w)))) Hx) as F.
  unfold populate_chain.
  persist (block_person (A:=unit) session (Some ("test" ++ str i)%string));
    [assumption|].
  persist (block_user (A:=unit) session (Some (List.length (instances w)))
             (Some (next_id (map Person.id (persons (db w))))));
    [assumption| |].
  { rewrite Hin. unfold key_of.
    rewrite <- app_assoc. simpl. now rewrite nth_error_mid. }
  persist (block_company (A:=unit) session (Some ("company" ++ str i)%string));
    [assumption|].
  persist (block_account (A:=unit) session (Some "x{i}")
             (Some (List.length (instances w1)))
             (Some (next_id (map Company.id (companies (db w))))));
    [assumption| |].
  { rewrite Hin1, Hdb0, Hdb. simpl. unfold key_of.
    rewrite <- app_assoc. simpl. now rewrite nth_error_mid. }
  persist (block_user_account (A:=unit) session
             (Some (List.length (instances w0)))
             (Some (List.length (instances w2)))
             (next_id (map User.id (users (db w))))
             (next_id (map Account.id (accounts (db w)))));
    [assumption| | | |].
  { rewrite Hin2, Hin1, Hin0, Hdb. simpl. unfold key_of.
    rewrite <- !app_assoc. simpl. now rewrite nth_error_mid. }
  { rewrite Hin2, Hdb1, Hdb0, Hdb. simpl. unfold key_of.
    rewrite <- !app_assoc. simpl. now rewrite nth_error_mid. }
  { rewrite Hdb2, Hdb1, Hdb0, Hdb. simpl. exact F. }
  cbv beta. rewrite (commit_clean session w4 Hpe3).
  eexists. split; [reflexivity|]. simpl.
  rewrite Hdb3, Hdb2, Hdb1, Hdb0, Hdb. simpl.
  repeat split; congruence.
Qed.

Lemma populate_loop_appends (session : Session) (k : nat) :
  forall (i : nat) (w : World),
    pending w = [] -> accounts_exist (db w) ->
    exists w',
      for_each (seq i k) (populate_chain session) w = (inr tt, w') /\
      db w' = fold_left append_chain (seq i k) (db w) /\ pending w' = [] /\
      accounts_exist (db w') /\
      listeners w' = listeners w /\ next_conn w' = next_conn w /\
      List.length (counters w') = List.length (counters w) /\
      stdout w' = stdout w.
Proof.
  induction k as [|k IH]; intros i w Hp Hx.
  - exists w. simpl. repeat split; auto.
  - destruct (populate_chain_appends session i w Hp Hx)
      as (w1 & E1 & D1 & P1 & L1 & N1 & C1 & O1).
    assert (Hx1 : accounts_exist (db w1))
      by (rewrite D1; now apply accounts_exist_append).
    destruct (IH (S i) w1 P1 Hx1)
      as (w2 & E2 & D2 & P2 & Hx2 & L2 & N2 & C2 & O2).
    exists w2. simpl. rewrite (bind_ok _ E1), <- D1.
    repeat (split; [congruence || assumption|]). congruence.
Qed.





(** ** The statements of [populate_db] *)

(** A flush of one transient instance that succeeds has run one INSERT. *)
Lemma flush_one_effect (session : Session) (obj : nat) (w w1 : World)
  (inst : Instance) :
  nth_error (instances w) obj = Some inst -> transient inst = true ->
  flush_one session obj w = (inr tt, w1) ->
  trace w1 = trace w ++ [EvExecute (s_conn session)] /\
  List.length (instances w1) = List.length (instances w) /\
  pending w1 = pending w /\ next_conn w1 = next_conn w.
Proof.
  intros Hn Ht. unfold flush_one, bind at 1, get. rewrite Hn.
  destruct inst
    as [[k|] name|[k|] person|[k|] name|[k|] status company|[] user account];
    try discriminate Ht.
  - intros [= <-]. simpl. now rewrite length_store_at.
  - unfold lift, bind at 1.
    destruct (key_of person (instances w)); [discriminate|].
    intros [= <-]. simpl. now rewrite length_store_at.
  - intros [= <-]. simpl. now rewrite length_store_at.
  - unfold lift, bind at 1.
    destruct (key_of company (instances w)); [discriminate|].
    intros [= <-]. simpl. now rewrite length_store_at.
  - unfold lift, bind at 1.
    destruct (key_of user (instances w)) as [|[u|]]; try discriminate;
      unfold bind at 1;
      destruct (key_of account (instances w)) as [|[a|]]; try discriminate.
    destruct (existsb _ _); [discriminate|].
    intros [= <-]. simpl. now rewrite length_store_at.
Qed.

(** [obj = cls(..); session.add(obj); session.flush()] with nothing else
    pending, when what follows returned: the events of the block. *)
Lemma block_trace {A} (session : Session) (inst : Instance)
  (k : nat -> M A) (w : World) (r : A) (w' : World) :
  transient inst = true -> pending w = [] ->
  (obj <- new_instance inst ;;
   session_add session obj ;;
   session_flush session ;;
   k obj) w = (inr r, w') ->
  exists w1,
    k (List.length (instances w)) w1 = (inr r, w') /\
    trace w1
    = trace w ++ [EvAdd (List.length (instances w));
                  EvExecute (s_conn session); EvFlush] /\
    List.length (instances w1) = S (List.length (instances w)) /\
    pending w1 = [] /\ next_conn w1 = next_conn w.
Proof.
  intros Ht Hp.
  cbv [new_instance session_add session_flush flush_pending bind get modify
       ret].
  cbn [pending instances set_pending set_instances log]. rewrite Hp.
  cbn [app for_each]. unfold bind at 1.
  set (h := List.length (instances w)).
  set (w0 := log (EvAdd h) _).
  destruct (flush_one session h w0) as [[e|[]] w1] eqn:E; [discriminate|].
  intros H. exists (log EvFlush (set_pending [] w1)). split; [exact H|].
  destruct (flush_one_effect session h w0 w1 inst) as (T & L & P & N); auto.
  { subst w0 h. simpl. apply nth_error_snoc. }
  simpl in T, L, N |- *. rewrite T, L, N, length_app, <- !app_assoc. simpl.
  repeat split; auto. subst h. lia.
Qed.

Ltac block_events H :=
  lazymatch type of H with
  | bind (new_instance ?inst)
      (fun obj => bind (session_add ?s obj)
         (fun _ => bind (session_flush _) (fun _ => @?K obj))) ?w = _ =>
      let w1 := fresh "w" in
      let T := fresh "Htr" in
      let L := fresh "Hle" in
      let P := fresh "Hpe" in
      let N := fresh "Hnc" in
      apply (block_trace s inst K w) in H;
      [ destruct H as (w1 & H & T & L & P & N); cbv beta in H
      | reflexivity | assumption ]
  end.

Lemma populate_chain_trace (session : Session) (i : nat) (w w' : World) :
  pending w = [] ->
  populate_chain session i w = (inr tt, w') ->
  trace w'
  = trace w ++ chain_events (s_conn session) (List.length (instances w)) /\
  List.length (instances w') = List.length (instances w) + 5 /\
  pending w' = [] /\ next_conn w' = next_conn w.
Proof.
  intros Hp H. unfold populate_chain in H.
  block_events H. block_events H. block_events H. block_events H.
  block_events H.
  rewrite commit_clean in H by assumption. injection H as <-. simpl.
  rewrite Htr3, Htr2, Htr1, Htr0, Htr, Hle2, Hle1, Hle0, Hle.
  rewrite <- !app_assoc. simpl. unfold chain_events.
  replace (List.length (instances w) + 1) with (S (List.length (instances w)))
    by lia.
  replace (List.length (instances w) + 2)
    with (S (S (List.length (instances w)))) by lia.
  replace (List.length (instances w) + 3)
    with (S (S (S (List.length (instances w))))) by lia.
  replace (List.length (instances w) + 4)
    with (S (S (S (S (List.length (instances w)))))) by lia.
  repeat split; auto; try congruence. lia.
Qed.

Lemma flat_map_seq_shift {A} (g : nat -> list A) (k : nat) :
  flat_map g (seq 1 k) = flat_map (fun j => g (S j)) (seq 0 k).
Proof.
  rewrite <- seq_shift, !flat_map_concat_map, map_map. reflexivity.
Qed.

Lemma populate_loop_trace (session : Session) (k : nat) :
  forall (i : nat) (w w' : World),
    pending w = [] ->
    for_each (seq i k) (populate_chain session) w = (inr tt, w') ->
    trace w'
    = trace w
      ++ flat_map (fun j => chain_events (s_conn session)
                              (List.length (instances w) + 5 * j)) (seq 0 k) /\
    next_conn w' = next_conn w.
Proof.
  induction k as [|k IH]; intros i w w' Hp H.
  - injection H as <-. simpl. now rewrite app_nil_r.
  - cbn [seq for_each] in H. unfold bind in H.
    destruct (populate_chain session i w) as [[e|[]] w1] eqn:E;
      [discriminate|].
    destruct (populate_chain_trace _ _ _ _ Hp E) as (T1 & L1 & P1 & N1).
    destruct (IH _ _ _ P1 H) as (T2 & N2).
    split; [|congruence].
    rewrite T2, T1, <- app_assoc. f_equal.
    cbn [seq flat_map]. rewrite Nat.mul_0_r, Nat.add_0_r. f_equal.
    rewrite flat_map_seq_shift. apply flat_map_ext. intros j.
    f_equal. lia.
Qed.

Lemma executed_chain_events {A} (c : nat) (f : A -> nat) (l : list A) :
  executed (flat_map (fun i => chain_events c (f i)) l)
  = repeat c (5 * List.length l).
Proof.
  induction l as [|x l IH]; auto.
  cbn [flat_map]. rewrite executed_app, IH.
  replace (5 * List.length (x :: l)) with (5 + 5 * List.length l)
    by (simpl; lia).
  now rewrite repeat_app.
Qed.

Lemma commits_app (t1 t2 : list Event) :
  commits (t1 ++ t2) = commits t1 + commits t2.
Proof.
  unfold commits. now rewrite filter_app, length_app.
Qed.

Lemma commits_chain_events {A} (c : nat) (f : A -> nat) (l : list A) :
  commits (flat_map (fun i => chain_events c (f i)) l) = List.length l.
Proof.
  induction l as [|x l IH]; auto.
  cbn [flat_map]. rewrite commits_app, IH. reflexivity.
Qed.

(** Extra X7. On a store that keeps [user_account.account_id] sound,
    [populate_db(n)] does, for each of the [n] chains in turn, five times
    add, one INSERT, flush, and then one commit: [5 * n] statements in all,
    every one on the connection of its own session, and [n] commits. *)
Theorem populate_db_statement_log :
  forall (n : nat) (w : World),
    pending w = [] ->
    accounts_exist (db w) ->
    exists w',
      populate_db n w = (inr tt, w') /\
      trace w'
      = trace w
        ++ flat_map (fun i => chain_events (next_conn w)
                                (List.length (instances w) + 5 * i))
             (seq 0 n) /\
      executed (trace w') = executed (trace w) ++ repeat (next_conn w) (5 * n) /\
      commits (trace w') = commits (trace w) + n /\
      next_conn w' = S (next_conn w).
Proof.
  intros n w Hp Hx.
  destruct (populate_loop_appends (mkSession (next_conn w)) n 0
              (set_next_conn (S (next_conn w)) w) Hp Hx)
    as (w1 & E1 & _).
  destruct (populate_loop_trace (mkSession (next_conn w)) n 0
              (set_next_conn (S (next_conn w)) w) w1 Hp E1) as (T & N).
  cbn [s_conn set_next_conn trace instances next_conn] in T, N.
  exists w1. split.
  { cbv [populate_db with_session new_session finally bind get modify ret].
    rewrite E1. reflexivity. }
  split; [exact T|]. rewrite T, executed_app, commits_app.
  rewrite executed_chain_events, commits_chain_events, length_seq.
  now repeat split.
Qed.

Lemma populate_db_statement_log_witness :
  exists w',
    populate_db 2 broken_world = (inr tt, w') /\
    trace w' = chain_events 0 0 ++ chain_events 0 5 /\
    executed (trace w') = repeat 0 10 /\
    commits (trace w') = 2 /\
    next_conn w' = 1.
Proof.
  apply (populate_db_statement_log 2 broken_world).
  - reflexivity.
  - intros ua [<-|[<-|[]]].
    + exists (Account.mk 1 (Some "x{i}") None). split; [now left|reflexivity].
    + exists (Account.mk 2 (Some "x{i}") (Some 1)).
      split; [right; now left|reflexivity].
Defined.

(** ** The scenarios on any store *)

(** Extra X8. Whatever the database holds, a scenario executes between one
    and five statements (the select of [first()] and at most one lazy load
    for each of the four relationships the dereference goes through), all
    of them on the connection of its own session. When it returns, the
    count it prints is exactly the number of statements it executed; when
    the dereference raises, it prints nothing after the query. *)
Theorem scenario_count_is_accurate :
  forall (banner : string) (options : OptionsArg) (q : Query) (w : World),
    refs_ok w ->
    get_query (mkSession (next_conn w)) options = inr q ->
    exists r w' k,
      scenario banner options w = (r, w') /\
      1 <= k <= 5 /\
      executed (trace w') = executed (trace w) ++ repeat (next_conn w) k /\
      stdout w'
      = stdout w
        ++ [OutStr "--------"; OutStr banner; OutStr "Query"; OutQuery q]
        ++ match r with
           | inr _ => [OutStr "Statements"; OutInt k]
           | inl _ => []
           end.
Proof.
  intros banner options q w Hok Hq.
  destruct (scenario_run banner options q w Hok Hq)
    as (r & w' & k & E & Hk & _ & _ & _ & _ & Ht & _ & Ho).
  now exists r, w', k.
Qed.

Lemma scenario_count_is_accurate_witness :
  exists q r w' k,
    get_query (mkSession 0) ArgNone = inr q /\
    scenario "simple" ArgNone broken_world = (r, w') /\
    1 <= k <= 5 /\
    executed (trace w') = repeat 0 k /\
    stdout w'
    = [OutStr "--------"; OutStr "simple"; OutStr "Query"; OutQuery q]
      ++ match r with
         | inr _ => [OutStr "Statements"; OutInt k]
         | inl _ => []
         end.
Proof.
  pose (q := Query_filter where_clause
               (Query_options []
                  (Query_join join_keys
                     (session_query (mkSession 0) CPerson)))).
  exists q.
  destruct (scenario_count_is_accurate "simple" ArgNone q broken_world)
    as (r & w' & k & H); [|reflexivity|].
  - intros l Hl. destruct Hl.
  - exists r, w', k. split; [reflexivity|exact H].
Defined.

(** Extra X9. A scenario registers one [after_execute] listener, on the
    connection of its session, and never removes it. When the scenario is
    over, whether it returned or raised, the listener list is the old one
    plus that callback and the counter is switched off: its count is final,
    and statements executed later, on any connection, still reach the
    callback and leave the count as it is. *)
Theorem scenario_leaves_its_listener :
  forall (banner : string) (options : OptionsArg) (q : Query) (w : World),
    refs_ok w ->
    get_query (mkSession (next_conn w)) options = inr q ->
    exists r w' k,
      scenario banner options w = (r, w') /\
      listeners w'
      = listeners w ++ [(next_conn w, List.length (counters w))] /\
      attached w' (List.length (counters w))
        (DBStatementCounter.mk (next_conn w) k false) /\
      forall later : list nat,
        exists w'',
          execute_all later w' = (inr tt, w'') /\
          listeners w'' = listeners w' /\
          attached w'' (List.length (counters w))
            (DBStatementCounter.mk (next_conn w) k false).
Proof.
  intros banner options q w Hok Hq.
  destruct (scenario_run banner options q w Hok Hq)
    as (r & w' & k & E & _ & Hl & _ & Hok' & Ha & _).
  exists r, w', k. repeat (split; [assumption|]). intros later.
  destruct (execute_all_attached later w' _ _ Hok' Ha)
    as (w'' & E' & _ & Hl' & _ & _ & _ & Ha').
  rewrite callback_iter in Ha'. now exists w''.
Qed.

Lemma scenario_leaves_its_listener_witness :
  exists q r w' k,
    get_query (mkSession 1) ArgNone = inr q /\
    scenario "simple" ArgNone watched_world = (r, w') /\
    listeners w' = [(0, 0); (1, 1)] /\
    attached w' 1 (DBStatementCounter.mk 1 k false) /\
    forall later : list nat,
      exists w'',
        execute_all later w' = (inr tt, w'') /\
        listeners w'' = listeners w' /\
        attached w'' 1 (DBStatementCounter.mk 1 k false).
Proof.
  pose (q := Query_filter where_clause
               (Query_options []
                  (Query_join join_keys
                     (session_query (mkSession 1) CPerson)))).
  exists q.
  destruct (scenario_leaves_its_listener "simple" ArgNone q watched_world)
    as (r & w' & k & H); [|reflexivity|].
  - intros l [<-|[]]. simpl. lia.
  - exists r, w', k. split; [reflexivity|exact H].
Defined.

(** Extra X10. A scenario works on the connection of its own session only:
    a counter built on any other connection, even one that is inside its
    scope while the scenario runs, is after the scenario exactly what it was
    before, count and flag. *)
Theorem scenario_keeps_other_counters :
  forall (banner : string) (options : OptionsArg) (q : Query) (w : World)
         (r : nat) (cnt : DBStatementCounter.t),
    refs_ok w ->
    get_query (mkSession (next_conn w)) options = inr q ->
    attached w r cnt ->
    DBStatementCounter.conn cnt <> next_conn w ->
    attached (snd (scenario banner options w)) r cnt.
Proof.
  intros banner options q w r cnt Hok Hq Ha Hne.
  destruct (scenario_run banner options q w Hok Hq)
    as (r0 & w' & k & E & _ & _ & _ & _ & _ & _ & K & _).
  rewrite E. simpl. now apply K.
Qed.

Lemma scenario_keeps_other_counters_witness :
  attached (snd (scenario "simple" ArgNone watched_world)) 0
    (DBStatementCounter.mk 0 3 true).
Proof.
  apply (scenario_keeps_other_counters "simple" ArgNone
           (Query_filter where_clause
              (Query_options []
                 (Query_join join_keys
                    (session_query (mkSession 1) CPerson))))
           watched_world 0 (DBStatementCounter.mk 0 3 true)).
  - intros l [<-|[]]. simpl. lia.
  - reflexivity.
  - split; [reflexivity|]. intros [|c]; reflexivity.
  - simpl. lia.
Defined.

(** ** The whole script *)

Lemma scenario_next_conn (banner : string) (options : OptionsArg) (q : Query)
  (w : World) :
  refs_ok w ->
  get_query (mkSession (next_conn w)) options = inr q ->
  next_conn (snd (scenario banner options w)) = S (next_conn w).
Proof.
  intros Hok Hq.
  destruct (scenario_run banner options q w Hok Hq)
    as (r & w' & k & E & _ & _ & Hn & _).
  now rewrite E.
Qed.

(** A scenario of the script on the seeded store, with its cost: one
    statement on the empty store; on a store with at least one chain, five
    statements without options and one with either list of options. *)
Lemma scenario_on_seeded (banner : string) (options : OptionsArg) (q : Query)
  (k n : nat) (w : World) :
  (options = ArgNone /\ k = 5) \/
  ((options = ArgList joinedload_options \/ options = ArgList eager_options)
   /\ k = 1) ->
  refs_ok w -> db w = seeded n ->
  get_query (mkSession (next_conn w)) options = inr q ->
  exists w',
    scenario banner options w = (inr tt, w') /\
    stdout w'
    = stdout w ++ [OutStr "--------"; OutStr banner; OutStr "Query";
                   OutQuery q; OutStr "Statements";
                   OutInt (if Nat.eqb n 0 then 1 else k)] /\
    db w' = db w /\ refs_ok w' /\ next_conn w' = S (next_conn w) /\
    executed (trace w')
    = executed (trace w)
      ++ repeat (next_conn w) (if Nat.eqb n 0 then 1 else k).
Proof.
  intros Hc Hok Hd Hq.
  pose proof (scenario_next_conn banner options q w Hok Hq) as Hn.
  assert (H : exists w',
             scenario banner options w = (inr tt, w') /\
             stdout w'
             = stdout w ++ [OutStr "--------"; OutStr banner; OutStr "Query";
                            OutQuery q; OutStr "Statements";
                            OutInt (if Nat.eqb n 0 then 1 else k)] /\
             db w' = db w /\ refs_ok w' /\
             executed (trace w')
             = executed (trace w)
               ++ repeat (next_conn w) (if Nat.eqb n 0 then 1 else k)).
  { destruct n as [|n]; cbn [Nat.eqb].
    - apply scenario_no_person; auto. now rewrite Hd.
    - apply scenario_outcome; auto. intros ws Hd' Hs.
      pose proof (get_query_shape _ _ _ Hq) as (Hs' & _).
      replace (next_conn w) with (s_conn (q_session q)) in *
        by now rewrite Hs'.
      assert (Hds : db ws = seeded (S n)) by congruence.
      destruct Hc as [[-> ->]|[[->| ->] ->]].
      + apply (first_and_dereference_simple q n); auto. now rewrite Hs'.
      + apply (first_and_dereference_joinedload q n); auto. now rewrite Hs'.
      + apply (first_and_dereference_eager q n); auto. now rewrite Hs'. }
  destruct H as (w' & E & Ho & Hd' & Hok' & Ht).
  rewrite E in Hn. exists w'. repeat (split; [assumption|]). assumption.
Qed.

(** Extra X11. The whole script, for every number [n] of seeded chains:
    it runs to its end on four sessions, one connection each; it prints
    three blocks of six lines, the third under the banner "joinedload" like
    the second; the counts are 5, 1 and 1 (1, 1 and 1 when nothing is
    seeded), so they do not grow with [n]; and it executes [5 * n] INSERTs
    on the first connection, then the statements of the three scenarios on
    the second, third and fourth. *)
Theorem script_output :
  forall n : nat,
    exists w' q1 q2 q3,
      script n initial_world = (inr tt, w') /\
      get_query (mkSession 1) ArgNone = inr q1 /\
      get_query (mkSession 2) (ArgList joinedload_options) = inr q2 /\
      get_query (mkSession 3) (ArgList eager_options) = inr q3 /\
      stdout w'
      = [OutStr "--------"; OutStr "simple"; OutStr "Query"; OutQuery q1;
         OutStr "Statements"; OutInt (if Nat.eqb n 0 then 1 else 5);
         OutStr "--------"; OutStr "joinedload"; OutStr "Query"; OutQuery q2;
         OutStr "Statements"; OutInt 1;
         OutStr "--------"; OutStr "joinedload"; OutStr "Query"; OutQuery q3;
         OutStr "Statements"; OutInt 1] /\
      executed (trace w')
      = repeat 0 (5 * n) ++ repeat 1 (if Nat.eqb n 0 then 1 else 5) ++ [2; 3] /\
      next_conn w' = 4 /\
      db w' = seeded n.
Proof.
  intros n.
  destruct (populate_db_seeded n initial_world eq_refl eq_refl)
    as (w & E0 & Hd & _ & Hl & Hn & _ & Ho).
  destruct (populate_db_statement_log n initial_world eq_refl)
    as (w0 & E0' & _ & Ht & _); [intros ua []|].
  rewrite E0 in E0'. injection E0' as <-.
  assert (Hok : refs_ok w) by (intros l Hin; rewrite Hl in Hin; destruct Hin).
  unfold script. rewrite (bind_ok _ E0). clear E0.
  cbn [initial_world next_conn stdout trace executed flat_map app] in *.
  destruct (get_query (mkSession (next_conn w)) ArgNone) as [|q1] eqn:Hq1;
    [discriminate|].
  destruct (scenario_on_seeded "simple" ArgNone q1 5 n w) as
    (w1 & E1 & Ho1 & Hd1 & Hok1 & Hn1 & Ht1); auto.
  destruct (get_query (mkSession (next_conn w1)) (ArgList joinedload_options))
    as [|q2] eqn:Hq2; [discriminate|].
  destruct (scenario_on_seeded "joinedload" (ArgList joinedload_options) q2 1
              n w1) as (w2 & E2 & Ho2 & Hd2 & Hok2 & Hn2 & Ht2);
    auto; [congruence|].
  destruct (get_query (mkSession (next_conn w2)) (ArgList eager_options))
    as [|q3] eqn:Hq3; [discriminate|].
  destruct (scenario_on_seeded "joinedload" (ArgList eager_options) q3 1
              n w2) as (w3 & E3 & Ho3 & Hd3 & Hok3 & Hn3 & Ht3);
    auto; [congruence|].
  exists w3, q1, q2, q3. split.
  { unfold simple_query, joinedload_query, eager_query.
    now rewrite (bind_ok _ E1), (bind_ok _ E2). }
  rewrite Hn1, Hn in Hq2, Ht2. rewrite Hn2, Hn1, Hn in Hq3, Ht3.
  rewrite Hn in Hq1, Ht1.
  repeat (split; [assumption|]).
  split; [|split; [|split]].
  - rewrite Ho3, Ho2, Ho1, Ho. destruct (Nat.eqb n 0); reflexivity.
  - rewrite Ht3, Ht2, Ht1, Ht. destruct (Nat.eqb n 0); simpl;
      now rewrite <- !app_assoc.
  - congruence.
  - congruence.
Qed.

(** ** What the seeding adds, under the query *)



(** ** The value the dereference reads *)

Lemma Query_first_value (q : Query) (w : World) (rows : list (list Entity)) :
  Query_rows q (db w) = Some rows ->
  exists w',
    Query_first q w = (inr (first_value q (db w) rows), w') /\ db w' = db w.
Proof.
  intros Hr. unfold Query_first, bind at 1, get. rewrite Hr.
  exists (snd (execute (s_conn (q_session q)) w)). split; [|reflexivity].
  destruct rows as [|[|e row] rows]; reflexivity.
Qed.

(** A lazy load, with the value it yields. *)
Lemma getattr_lazy_value (w : World) (st : InstanceState) (e : Entity)
  (dict : list (string * Value)) (name : string) (es : list Entity) :
  assoc name dict = None -> column_attr e name = None ->
  related (db w) e name = Some es -> lazy_selects e name = true ->
  exists w',
    getattr (VObj st e dict) name w
    = (inr (rel_value e name
              (map (load_instance (max_path (st_options st)) (db w)
                      (st_conn st) (st_options st) None
                      (st_path st ++ [name])) es)), w') /\
    db w' = db w.
Proof.
  intros H1 H2 H3 H4. simpl. rewrite H1, H2. unfold bind at 1, get.
  rewrite H3, H4. exists (snd (execute (st_conn st) w)).
  split; reflexivity.
Qed.

Ltac load_step lem :=
  lazymatch goal with
  | Hd : db ?w = seeded _
    |- context [bind (getattr (VObj ?st ?e ?dict) ?name) _ ?w] =>
      let Hrel := fresh "Hrel" in
      let w' := fresh "w" in
      let E := fresh "E" in
      let Hd' := fresh "Hd" in
      eassert (Hrel : related (db w) e name = Some _)
        by (rewrite Hd; apply lem; lia);
      destruct (getattr_lazy_value w st e dict name _
                  eq_refl eq_refl Hrel eq_refl) as (w' & E & Hd');
      rewrite (bind_ok _ E); clear E Hrel;
      rewrite Hd in Hd'; clear Hd;
      cbn [map load_instance max_path fold_right st_options st_conn st_path
           rel_value uselist app String.eqb Ascii.eqb Bool.eqb];
      rewrite ?bind_assoc
  end.

(** Extra X13. The loader options change the number of statements, not the
    value read: on a store seeded with at least one chain, fetching the
    first person and dereferencing
    [person.user.my_accounts[0].account.company.name] yields "company0",
    the name of the company of the first chain, without options, with the
    four [joinedload] options and with the four [contains_eager] options. *)
Theorem strategies_read_the_same_value :
  forall (n : nat) (session : Session) (options : OptionsArg) (q : Query)
         (w : World),
    0 < n ->
    db w = seeded n ->
    options = ArgNone \/ options = ArgList joinedload_options \/
    options = ArgList eager_options ->
    get_query session options = inr q ->
    exists w',
      (person <- Query_first q ;; dereference person) w
      = (inr (VStr "company0"), w').
Proof.
  intros [|n] session options q w Hn Hd Ho Hq; [lia|].
  pose proof (Query_rows_seeded _ _ _ (S n) Hq) as Hr. rewrite <- Hd in Hr.
  destruct (Query_first_value q w _ Hr) as (w1 & E1 & Hd1).
  rewrite (bind_ok _ E1). clear E1. rewrite Hd in Hd1.
  apply get_query_shape in Hq as (_ & _ & Hj & _ & Hopt).
  unfold first_value. cbn [map seq]. rewrite Hopt, Hj, Hd. clear Hr Hopt Hj.
  destruct Ho as [->|[->| ->]]; cbn [truthy_arg unpack List.length Nat.eqb negb].
  - cbn [max_path fold_right seeded_row chain_row load_instance].
    unfold dereference. clear Hd. rename Hd1 into Hd.
    load_step related_user_seeded.
    load_step related_my_accounts_seeded.
    step. rewrite ?bind_assoc.
    load_step related_account_seeded.
    load_step related_company_seeded.
    eexists. reflexivity.
  - exists w1.
    cbn -[related seeded chain_person chain_user chain_user_account
          chain_account chain_company].
    rewrite (related_user_seeded (S n) 0) by lia.
    cbn -[related seeded chain_person chain_user chain_user_account
          chain_account chain_company].
    rewrite (related_my_accounts_seeded (S n) 0) by lia.
    cbn -[related seeded chain_person chain_user chain_user_account
          chain_account chain_company].
    rewrite (related_account_seeded (S n) 0) by lia.
    cbn -[related seeded chain_person chain_user chain_user_account
          chain_account chain_company].
    rewrite (related_company_seeded (S n) 0) by lia.
    reflexivity.
  - exists w1. vm_compute. reflexivity.
Qed.

Lemma strategies_read_the_same_value_witness :
  exists w',
    (person <- Query_first
                 (Query_filter where_clause
                    (Query_options joinedload_options
                       (Query_join join_keys
                          (session_query (mkSession 1) CPerson)))) ;;
     dereference person) (seeded_world 3)
    = (inr (VStr "company0"), w').
Proof.
  apply (strategies_read_the_same_value 3 (mkSession 1)
           (ArgList joinedload_options)).
  - lia.
  - reflexivity.
  - right. now left.
  - reflexivity.
Defined.

(** ** The relationships of the mapped classes and the primary keys *)

Lemma filter_key_le1 {A} (key : A -> nat) (k : nat) (l : list A) :
  NoDup (map key l) ->
  List.length (filter (fun y => Nat.eqb (key y) k) l) <= 1.
Proof.
  induction l as [|a l IH]; simpl; intros H; [lia|].
  inversion H as [|? ? Hnin Hnd]; subst.
  destruct (Nat.eqb_spec (key a) k) as [<-|Hne]; [|now apply IH].
  rewrite filter_none; [simpl; lia|].
  intros y Hy. apply Nat.eqb_neq. intros Heq. apply Hnin.
  rewrite <- Heq. now apply in_map.
Qed.

Lemma filter_key_unique {A} (key : A -> nat) (x : A) (l : list A) :
  NoDup (map key l) -> In x l ->
  filter (fun y => Nat.eqb (key y) (key x)) l = [x].
Proof.
  induction l as [|a l IH]; simpl; intros Hnd Hin; [easy|].
  inversion Hnd as [|? ? Hnin Hnd']; subst. destruct Hin as [->|Hin].
  - rewrite Nat.eqb_refl. f_equal. apply filter_none.
    intros y Hy. apply Nat.eqb_neq. intros Heq. apply Hnin.
    rewrite <- Heq. now apply in_map.
  - destruct (Nat.eqb_spec (key a) (key x)) as [Heq|Hne]; [|now apply IH].
    exfalso. apply Hnin. rewrite Heq. now apply in_map.
Qed.

Lemma filter_fk_le1 {A} (key : A -> nat) (fk : option nat) (l : list A) :
  NoDup (map key l) ->
  List.length (filter (fun y => fk_eqb fk (key y)) l) <= 1.
Proof.
  intros H. destruct fk as [k|]; simpl.
  - rewrite (filter_ext _ (fun y => Nat.eqb (key y) k));
      [now apply filter_key_le1|].
    intros y. apply Nat.eqb_sym.
  - rewrite filter_none; auto.
Qed.

(** Extra X14. With unique primary keys the relationships behave as
    declared. Each many-to-one relationship ([User.person],
    [Account.company], [UserAccount.account], [UserAccount.user]) relates a
    row to at most one row; and the relationships that follow the same
    foreign key in both directions are inverse: for every user that
    [person.user] relates to a person, [user.person] is that person and
    nothing else, and for every row of [user.my_accounts], its [user] is
    that user and nothing else. *)
Theorem relationships_respect_keys :
  forall d : Store,
    NoDup (map Person.id (persons d)) ->
    NoDup (map User.id (users d)) ->
    NoDup (map Company.id (companies d)) ->
    NoDup (map Account.id (accounts d)) ->
    (forall u es,
        related d (EUser u) "person" = Some es -> List.length es <= 1) /\
    (forall a es,
        related d (EAccount a) "company" = Some es -> List.length es <= 1) /\
    (forall ua es,
        related d (EUserAccount ua) "account" = Some es ->
        List.length es <= 1) /\
    (forall ua es,
        related d (EUserAccount ua) "user" = Some es -> List.length es <= 1) /\
    (forall p u es,
        In p (persons d) ->
        related d (EPerson p) "user" = Some es -> In (EUser u) es ->
        related d (EUser u) "person" = Some [EPerson p]) /\
    (forall u ua es,
        In u (users d) ->
        related d (EUser u) "my_accounts" = Some es ->
        In (EUserAccount ua) es ->
        related d (EUserAccount ua) "user" = Some [EUser u]).
Proof.
  intros d Hp Hu Hc Ha. repeat apply conj.
  - intros u es [= <-]. rewrite length_map. now apply filter_fk_le1.
  - intros a es [= <-]. rewrite length_map. now apply filter_fk_le1.
  - intros ua es [= <-]. rewrite length_map. now apply filter_key_le1.
  - intros ua es [= <-]. rewrite length_map. now apply filter_key_le1.
  - intros p u es Hin [= <-] Hr.
    apply in_map_iff in Hr as (u' & [= ->] & Hf).
    apply filter_In in Hf as [_ Hfk]. apply fk_eqb_eq in Hfk.
    simpl. rewrite Hfk. simpl.
    rewrite (filter_ext _ (fun y => Nat.eqb (Person.id y) (Person.id p)))
      by (intros y; apply Nat.eqb_sym).
    now rewrite (filter_key_unique Person.id p) by assumption.
  - intros u ua es Hin [= <-] Hr.
    apply in_map_iff in Hr as (ua' & [= ->] & Hf).
    apply filter_In in Hf as [_ Hk]. apply Nat.eqb_eq in Hk.
    simpl. rewrite Hk.
    now rewrite (filter_key_unique User.id u) by assumption.
Qed.

Lemma relationships_respect_keys_witness :
  related broken_store (EUser (User.mk 1 (Some 1))) "person"
  = Some [EPerson (Person.mk 1 (Some "test0"))].
Proof.
  destruct (relationships_respect_keys broken_store)
    as (_ & _ & _ & _ & H & _).
  - repeat constructor; simpl; intuition discriminate.
  - repeat constructor; simpl; intuition discriminate.
  - repeat constructor; simpl; intuition discriminate.
  - repeat constructor; simpl; intuition discriminate.
  - apply (H (Person.mk 1 (Some "test0")) (User.mk 1 (Some 1))
             [EUser (User.mk 1 (Some 1))]).
    + now left.
    + reflexivity.
    + now left.
Defined.
